(** * ERP -> APS integration DAG (dags/erp_aps_integracao.py)

    A shallow embedding of the Airflow DAG that moves the result sets of the
    Oracle package functions into SQL Server tables, copies the schedule back
    and resets the run flag, together with the properties of its
    specification.

    Conventions of the embedding.
    - A Python [str] is a Rocq [string], one [ascii] per character (code
      points 0 to 255, which covers every literal of the module).
    - A pandas [DataFrame] is a row count and an ordered list of labelled
      columns; labels may repeat, as pandas allows.
    - A Python [dict] is an association list in insertion order with unique
      keys ([dict_set] updates in place).
    - The two databases, the mail procedure, the queries file and the pandas
      parsers are the fields of one record [env]; code that touches them runs
      in a state-and-exception monad over [world].
    - Library calls (pandas, re, Airflow trigger rules) are read at their
      documented meaning; pandas is read as of version 1.3, the line Airflow
      2.2 is built against: a column carries a dtype, and what an operation
      does to a column depends on it. *)

From Stdlib Require Import String Ascii List ZArith Bool Arith Lia.
From Stdlib Require PrimFloat SpecFloat FloatOps.
Import ListNotations.
Open Scope string_scope.

(* ================================================================= *)
(** ** Python strings *)

Module Str.

(** A one-character string from its code point. *)
Definition chr (n : nat) : string := String (ascii_of_nat n) EmptyString.

(** [str.isspace] on one character (the white space of Latin-1); this is also
    what [\s] matches in a [str] pattern. *)
Definition is_space (c : ascii) : bool :=
  let n := nat_of_ascii c in
  (((9 <=? n) && (n <=? 13)) || ((28 <=? n) && (n <=? 32))
   || (n =? 133) || (n =? 160))%nat.

(** [str.lower] on one character. *)
Definition lower_char (c : ascii) : ascii :=
  let n := nat_of_ascii c in
  if (((65 <=? n) && (n <=? 90))
      || ((192 <=? n) && (n <=? 222) && negb (n =? 215)))%nat
  then ascii_of_nat (n + 32) else c.

Fixpoint lower (s : string) : string :=
  match s with
  | EmptyString => EmptyString
  | String c s' => String (lower_char c) (lower s')
  end.

Fixpoint filter (keep : ascii -> bool) (s : string) : string :=
  match s with
  | EmptyString => EmptyString
  | String c s' => if keep c then String c (filter keep s') else filter keep s'
  end.

Fixpoint forallb (p : ascii -> bool) (s : string) : bool :=
  match s with
  | EmptyString => true
  | String c s' => p c && forallb p s'
  end.

(** [d in s] for a one-character [d]. *)
Fixpoint has_char (d : ascii) (s : string) : bool :=
  match s with
  | EmptyString => false
  | String c s' => Ascii.eqb c d || has_char d s'
  end.

(** [s.startswith(p)] *)
Fixpoint startswith (p s : string) : bool :=
  match p, s with
  | EmptyString, _ => true
  | String _ _, EmptyString => false
  | String a p', String b s' => Ascii.eqb a b && startswith p' s'
  end.

(** [sub in s]. *)
Fixpoint contains (sub s : string) : bool :=
  startswith sub s ||
  match s with
  | EmptyString => false
  | String _ s' => contains sub s'
  end.


Fixpoint drop (n : nat) (s : string) : string :=
  match n, s with
  | O, _ => s
  | S _, EmptyString => EmptyString
  | S k, String _ s' => drop k s'
  end.

Fixpoint take (n : nat) (s : string) : string :=
  match n, s with
  | O, _ => EmptyString
  | S _, EmptyString => EmptyString
  | S k, String c s' => String c (take k s')
  end.

(** [s.lstrip(chars)] for a set of characters given as a predicate. *)
Fixpoint lstrip_by (p : ascii -> bool) (s : string) : string :=
  match s with
  | EmptyString => EmptyString
  | String c s' => if p c then lstrip_by p s' else s
  end.

Fixpoint rstrip_by (p : ascii -> bool) (s : string) : string :=
  match s with
  | EmptyString => EmptyString
  | String c s' =>
      match rstrip_by p s' with
      | EmptyString => if p c then EmptyString else String c EmptyString
      | r => String c r
      end
  end.

(** [s.strip()] *)
Definition strip (s : string) : string :=
  rstrip_by is_space (lstrip_by is_space s).

(** [s.split(d)[0]]: the text before the first [d]. *)
Fixpoint before_first (d : ascii) (s : string) : string :=
  match s with
  | EmptyString => EmptyString
  | String c s' => if Ascii.eqb c d then EmptyString
                   else String c (before_first d s')
  end.

(** The text after the first [d] (empty when there is none). *)
Fixpoint after_first (d : ascii) (s : string) : string :=
  match s with
  | EmptyString => EmptyString
  | String c s' => if Ascii.eqb c d then s' else after_first d s'
  end.

(** [s.split(d)[-1]]: the text after the last [d], all of [s] without one. *)
Fixpoint after_last (d : ascii) (s : string) : string :=
  match s with
  | EmptyString => EmptyString
  | String c s' =>
      if has_char d s' then after_last d s'
      else if Ascii.eqb c d then s' else s
  end.

(** [s.replace(old, new)] for a non-empty [old] (both call sites): left to
    right, non-overlapping.  [skip] counts the characters of a matched [old]
    still to be passed over. *)
Fixpoint replace_from (old new : string) (skip : nat) (s : string) : string :=
  match s with
  | EmptyString => EmptyString
  | String c s' =>
      match skip with
      | S k => replace_from old new k s'
      | O => if startswith old s
             then new ++ replace_from old new (String.length old - 1) s'
             else String c (replace_from old new 0 s')
      end
  end.

Definition replace (old new s : string) : string := replace_from old new 0 s.

(** Matching a lower-case ASCII literal at the head of [s] under [re.I]. *)
Definition prefix_ci (p s : string) : bool := startswith p (lower s).

End Str.

(* ================================================================= *)
(** ** Destination table name (extrai_envia_sqlserver, lines 276-282) *)

Definition close_paren : ascii := ")"%char.

(** [\s*\)] matched at the head of [s]. *)
Fixpoint ws_then_close (s : string) : bool :=
  match s with
  | EmptyString => false
  | String c s' =>
      if Ascii.eqb c close_paren then true
      else if Str.is_space c then ws_then_close s' else false
  end.

(** [([^)]+?)\s*\)] matched at the head of [s]: the lazy group takes the
    shortest non-empty run of characters other than [)] after which
    [\s*\)] matches. *)
Fixpoint lazy_group (s : string) : option string :=
  match s with
  | EmptyString => None
  | String c s' =>
      if Ascii.eqb c close_paren then None
      else if ws_then_close s' then Some (String c EmptyString)
      else option_map (String c) (lazy_group s')
  end.

(** [re.search(r'table\(([^)]+?)\s*\)', stmt, flags=re.I)]: the leftmost
    position where the pattern matches, giving [group(1)]. *)
Fixpoint re_search_table (stmt : string) : option string :=
  match (if Str.prefix_ci "table(" stmt then lazy_group (Str.drop 6 stmt)
         else None) with
  | Some g => Some g
  | None =>
      match stmt with
      | EmptyString => None
      | String _ rest => re_search_table rest
      end
  end.

(** [re.sub(r"^fc_return_rs(?:_rel)?_", "", func_name, flags=re.I)]: the
    optional group is tried first and given up when no [_] follows it. *)
Definition sub_fc_return_rs (func_name : string) : string :=
  if Str.prefix_ci "fc_return_rs" func_name then
    let r := Str.drop 12 func_name in
    if Str.prefix_ci "_rel_" r then Str.drop 5 r
    else if Str.startswith "_" r then Str.drop 1 r
    else func_name
  else func_name.

(** The character class [[();\s]]. *)
Definition in_paren_semi_space (c : ascii) : bool :=
  Ascii.eqb c "("%char || Ascii.eqb c ")"%char || Ascii.eqb c ";"%char
  || Str.is_space c.

(** Lines 277-282, from [group(1)] on. *)
Definition destino_of_func (func_full : string) : string :=
  let func_name := Str.after_last "."%char func_full in
  let destino := sub_fc_return_rs func_name in
  let destino := Str.lower (Str.filter (fun c => negb (in_paren_semi_space c)) destino) in
  let destino := "dbo." ++ destino in
  if Str.contains "estoques" destino
  then Str.replace "estoques" "estoque" destino
  else destino.

(** Lines 276-282; [None] is the [AttributeError] of [.group] on a failed
    search. *)
Definition derive_destino (stmt : string) : option string :=
  option_map destino_of_func (re_search_table stmt).


(* ================================================================= *)
(** ** Python values, exceptions and dictionaries *)

Record date := { d_year : Z; d_month : Z; d_day : Z }.
Record time := { t_hour : Z; t_minute : Z; t_second : Z; t_micro : Z }.
Record datetime := { dt_date : date; dt_time : time }.

(** The scalars a result set or a table cell can hold. *)
Inductive pyval : Type :=
| PNone                                (* None *)
| PNaT                                 (* pandas.NaT *)
| PBool (b : bool)
| PInt (z : Z)
| PFloat (f : PrimFloat.float)         (* float, nan included *)
| PStr (s : string)
| PTimestamp (d : datetime)            (* pandas.Timestamp *)
| PDatetime (d : datetime)             (* datetime.datetime *)
| PDate (d : date)                     (* datetime.date *)
| PTime (t : time).                    (* datetime.time *)

(** [pd.isna] / [pd.isnull] on a scalar; [pd.notnull] is its negation. *)
Definition isna (v : pyval) : bool :=
  match v with
  | PNone | PNaT => true
  | PFloat f => PrimFloat.is_nan f
  | _ => false
  end.

Definition notnull (v : pyval) : bool := negb (isna v).

(** An exception: its class and [str(e)]. *)
Record exn := { exn_type : string; exn_text : string }.

Inductive outcome (A : Type) : Type :=
| Ret (a : A)
| Raise (e : exn).
Arguments Ret {A} a.
Arguments Raise {A} e.

Definition obind {A B} (x : outcome A) (k : A -> outcome B) : outcome B :=
  match x with
  | Ret a => k a
  | Raise e => Raise e
  end.

(** A [dict] with [str] keys: insertion order, unique keys. *)
Definition dict (V : Type) : Type := list (string * V).

Section Dict.
Context {V : Type}.

Fixpoint dict_get (d : dict V) (k : string) : option V :=
  match d with
  | [] => None
  | (k', v) :: d' => if String.eqb k' k then Some v else dict_get d' k
  end.

(** [k in d] *)
Definition dict_mem (k : string) (d : dict V) : bool :=
  match dict_get d k with Some _ => true | None => false end.

(** [d[k] = v]: an existing key keeps its place. *)
Fixpoint dict_set (d : dict V) (k : string) (v : V) : dict V :=
  match d with
  | [] => [(k, v)]
  | (k', v') :: d' =>
      if String.eqb k' k then (k', v) :: d' else (k', v') :: dict_set d' k v
  end.

Definition dict_keys (d : dict V) : list string := map fst d.

End Dict.

(** [x in l] for a list of strings. *)
Definition mem (x : string) (l : list string) : bool :=
  existsb (String.eqb x) l.

(* ================================================================= *)
(** ** pandas data frames *)

Inductive dtype : Type :=
| DInt64 | DUInt64 | DFloat64 | DBool | DObject | DDatetime64.

Definition dtype_eqb (a b : dtype) : bool :=
  match a, b with
  | DInt64, DInt64 | DUInt64, DUInt64 | DFloat64, DFloat64 | DBool, DBool
  | DObject, DObject | DDatetime64, DDatetime64 => true
  | _, _ => false
  end.

Record series := { s_dtype : dtype; s_values : list pyval }.

(** A frame: its number of rows and its labelled columns, left to right.
    Labels may repeat. *)
Record dataframe := { df_rows : nat; df_cols : list (string * series) }.

(** [list(df.columns)] *)
Definition columns (df : dataframe) : list string := map fst (df_cols df).

(** [df.empty]: some axis has length zero. *)
Definition df_empty (df : dataframe) : bool :=
  (df_rows df =? 0)%nat || match df_cols df with [] => true | _ => false end.

(** [df.columns = df.columns.str.lower()] *)
Definition lower_columns (df : dataframe) : dataframe :=
  {| df_rows := df_rows df;
     df_cols := map (fun c => (Str.lower (fst c), snd c)) (df_cols df) |}.

(** [df.rename(columns=rename_map)] *)
Definition df_rename (rename_map : dict string) (df : dataframe) : dataframe :=
  {| df_rows := df_rows df;
     df_cols := map (fun c => (match dict_get rename_map (fst c) with
                               | Some new => new
                               | None => fst c
                               end, snd c)) (df_cols df) |}.

(** The columns carrying label [col]: one for [df[col]] a Series, several
    for a DataFrame, none for a [KeyError]. *)
Definition labelled (col : string) (df : dataframe) : list series :=
  map snd (List.filter (fun c => String.eqb (fst c) col) (df_cols df)).

(** [df[col] = f(df[col])] for an [f] that works column by column: every
    column labelled [col] is replaced in place. *)
Definition update_cols (f : series -> series) (col : string) (df : dataframe)
  : dataframe :=
  {| df_rows := df_rows df;
     df_cols := map (fun c => if String.eqb (fst c) col
                              then (fst c, f (snd c)) else c) (df_cols df) |}.

(** [df[col] = None] *)
Definition set_none (col : string) (df : dataframe) : dataframe :=
  let s := {| s_dtype := DObject; s_values := repeat PNone (df_rows df) |} in
  if mem col (columns df) then update_cols (fun _ => s) col df
  else {| df_rows := df_rows df; df_cols := (df_cols df ++ [(col, s)])%list |}.

(** [df.drop(columns=labels)] *)
Definition df_drop (labels : list string) (df : dataframe) : dataframe :=
  {| df_rows := df_rows df;
     df_cols := List.filter (fun c => negb (mem (fst c) labels)) (df_cols df) |}.

(** [df[labels]]: for each label in turn, every column that carries it. *)
Definition df_select (labels : list string) (df : dataframe)
  : outcome dataframe :=
  if forallb (fun l => mem l (columns df)) labels then
    Ret {| df_rows := df_rows df;
           df_cols := flat_map (fun l =>
                        List.filter (fun c => String.eqb (fst c) l) (df_cols df))
                        labels |}
  else Raise {| exn_type := "KeyError"; exn_text := "not in index" |}.

(** The cell of row [i] in a column. *)
Definition cell (i : nat) (s : series) : pyval := nth i (s_values s) PNone.

(** [list(df.itertuples(index=False, name=None))] *)
Definition itertuples (df : dataframe) : list (list pyval) :=
  map (fun i => map (fun c => cell i (snd c)) (df_cols df)) (seq 0 (df_rows df)).

(* ================================================================= *)
(** ** Module constants *)

Definition SQLSERVER_TO_PY : dict string :=
  [ ("int", "int64"); ("bigint", "int64"); ("smallint", "int64");
    ("tinyint", "int64"); ("bit", "bool"); ("money", "float64");
    ("smallmoney", "float64"); ("decimal", "float64"); ("numeric", "float64");
    ("float", "float64"); ("real", "float64"); ("varchar", "object");
    ("nvarchar", "object"); ("char", "object"); ("nchar", "object");
    ("text", "object"); ("ntext", "object"); ("datetime", "datetime64[ns]");
    ("smalldatetime", "datetime64[ns]"); ("date", "datetime64[ns]");
    ("datetime2", "datetime64[ns]"); ("time", "object") ].

Definition DATETIME_TYPES : list string := ["datetime"; "datetime2"; "smalldatetime"].
Definition DATE_TYPES : list string := ["date"].
Definition TIME_TYPES : list string := ["time"].

(** The alias table; empty in this module. *)
Definition COLUMN_MAPPING : dict string := [].

(* ================================================================= *)
(** ** The outside world *)

(** What [pd.to_numeric] makes of a scalar it has to parse. *)
Inductive num : Type := NInt (z : Z) | NFloat (f : PrimFloat.float).

(** Everything the module reaches but does not define: the pandas parsers,
    the queries file, the two databases and the mail procedure.  A fault is
    the exception an operation raises. *)
Record env := {
  (** [pd.to_numeric] on a scalar that is neither a number nor null *)
  parse_number : pyval -> option num;
  (** [pd.to_datetime] (with its [dayfirst]) on a scalar that is neither a
      timestamp nor null *)
  parse_datetime : bool -> pyval -> option datetime;
  (** [Timestamp.value]: the nanoseconds since the epoch *)
  timestamp_value : datetime -> Z;
  (** the lines of QUERIES_FILE; [None] when it does not exist *)
  queries_file : option (list string);
  (** [OracleHook.get_hook(conn_id="oracle_svc_aps")] *)
  get_oracle_hook : option exn;
  (** [MsSqlHook(...)] *)
  get_mssql_hook : option exn;
  (** [oracle.get_pandas_df(stmt)] *)
  oracle_get_pandas_df : string -> outcome dataframe;
  (** the catalog query of [get_sqlserver_schema], by schema and table *)
  mssql_get_records : string -> string -> outcome (list (string * string));
  (** [mssql.run("TRUNCATE TABLE ...")] on a table *)
  mssql_truncate_fault : string -> option exn;
  (** [mssql.insert_rows] on a table: the rows committed before it fails *)
  mssql_insert_fault : string -> option (nat * exn);
  (** [mssql.get_pandas_df("SELECT * FROM LSB_INT_Programacao")] *)
  mssql_programacao : outcome dataframe;
  oracle_truncate_fault : option exn;
  oracle_insert_fault : option (nat * exn);
  (** reading TB_CONFIG in [checa_flag] *)
  flag_select_fault : option exn;
  (** the UPDATE of TB_CONFIG and the SELECT that verifies it *)
  flag_update_fault : option exn;
  flag_verify_fault : option exn;
  (** [PC_SEND_MAIL] on a message *)
  send_mail_fault : string -> option exn
}.

(* ================================================================= *)
(** ** normalize_column_names (lines 128-161) *)

(** [name.lower().replace('_', '')] *)
Definition normalized (name : string) : string :=
  Str.replace "_" "" (Str.lower name).

(** [{k.lower().replace('_', ''): k for k in schema_map.keys()}] *)
Definition normalized_schema_of (keys : list string) : dict string :=
  fold_left (fun d k => dict_set d (normalized k) k) keys [].

(** One turn of the loop over [df.columns]. *)
Definition rename_step (mapping : dict string) (schema_map : dict string)
    (normalized_schema : dict string) (rename_map : dict string)
    (df_col : string) : dict string :=
  let df_col_normalized := normalized df_col in
  if dict_mem df_col schema_map then rename_map
  else
    match (match dict_get mapping df_col with
           | Some target => if dict_mem target schema_map then Some target else None
           | None => None
           end) with
    | Some target => dict_set rename_map df_col target
    | None =>
        match dict_get normalized_schema df_col_normalized with
        | Some k => dict_set rename_map df_col k
        | None => rename_map
        end
    end.

Definition rename_map_of (mapping : dict string) (schema_map : dict string)
    (cols : list string) : dict string :=
  fold_left (rename_step mapping schema_map
               (normalized_schema_of (dict_keys schema_map))) cols [].

(** The function with the alias table as an argument. *)
Definition normalize_column_names_with (mapping : dict string)
    (df : dataframe) (schema_map : dict string) : dataframe :=
  match rename_map_of mapping schema_map (columns df) with
  | [] => df
  | rename_map => df_rename rename_map df
  end.

Definition normalize_column_names : dataframe -> dict string -> dataframe :=
  normalize_column_names_with COLUMN_MAPPING.

(* ================================================================= *)
(** ** cast_df_to_schema (lines 163-202) *)

Definition is_bool (v : pyval) : bool :=
  match v with PBool _ => true | _ => false end.
Definition is_int (v : pyval) : bool :=
  match v with PInt _ => true | _ => false end.
Definition is_datetime (v : pyval) : bool :=
  match v with PTimestamp _ | PDatetime _ => true | _ => false end.

(** Truncation of a finite float towards zero. *)
Definition trunc_float (f : PrimFloat.float) : option Z :=
  match FloatOps.Prim2SF f with
  | SpecFloat.S754_zero _ => Some 0%Z
  | SpecFloat.S754_finite s m e =>
      let a := if (0 <=? e)%Z then (Z.pos m * 2 ^ e)%Z
               else (Z.pos m / 2 ^ (- e))%Z in
      Some (if s then (- a)%Z else a)
  | _ => None
  end.

(** A float that is neither nan nor infinite. *)
Definition finite (f : PrimFloat.float) : bool :=
  match trunc_float f with Some _ => true | None => false end.

(** [float(z)]: the double nearest to [z], ties to even; infinite when [z]
    is beyond the doubles. *)
Definition float_of_Z (z : Z) : PrimFloat.float :=
  FloatOps.SF2Prim
    (SpecFloat.binary_normalize FloatOps.prec FloatOps.emax z 0 false).

Definition int64_min : Z := (- 2 ^ 63)%Z.
Definition int64_max : Z := (2 ^ 63 - 1)%Z.
Definition uint64_max : Z := (2 ^ 64 - 1)%Z.
Definition in_int64 (z : Z) : bool := ((int64_min <=? z) && (z <=? int64_max))%Z.

(** A 64-bit pattern read as a signed integer. *)
Definition wrap_int64 (z : Z) : Z := ((z + 2 ^ 63) mod 2 ^ 64 - 2 ^ 63)%Z.

(** How [lib.maybe_convert_numeric] reads one object: as a missing value, a
    float, an integer or a boolean. *)
Inductive reading : Type :=
| RNull
| RFloat (f : PrimFloat.float)
| RInt (z : Z)
| RBool (b : bool).

Definition null_reading (r : reading) : bool :=
  match r with
  | RNull => true
  | RFloat f => PrimFloat.is_nan f
  | _ => false
  end.

(** The flags [sint_] and [uint_]: an integer below zero, or above the
    signed range, that 64 bits hold. *)
Definition sint_reading (r : reading) : bool :=
  match r with
  | RInt z => ((int64_min <=? z) && (z <? 0))%Z
  | _ => false
  end.

Definition uint_reading (r : reading) : bool :=
  match r with
  | RInt z => ((int64_max <? z) && (z <=? uint64_max))%Z
  | _ => false
  end.

(** The flag [float_], as one entry sets it. *)
Definition float_reading (r : reading) : bool :=
  match r with
  | RNull | RFloat _ => true
  | RInt z => ((z <? int64_min) || (uint64_max <? z))%Z
  | RBool _ => false
  end.

Definition int_reading (r : reading) : bool :=
  match r with RInt _ => true | _ => false end.

Definition float_of_reading (r : reading) : PrimFloat.float :=
  match r with
  | RNull => PrimFloat.nan
  | RFloat f => f
  | RInt z => float_of_Z z
  | RBool b => float_of_Z (if b then 1 else 0)
  end.

Definition int_of_reading (r : reading) : Z :=
  match r with
  | RInt z => z
  | RBool b => if b then 1%Z else 0%Z
  | _ => 0%Z
  end.

Definition bool_of_reading (r : reading) : bool :=
  match r with RBool b => b | _ => false end.

(** What [values.astype('i8')] makes of an object when the result compares
    equal to the object: the test of the fast path of
    [maybe_convert_numeric]. *)
Definition fast_int (v : pyval) : option Z :=
  match v with
  | PInt z => if in_int64 z then Some z else None
  | PBool b => Some (if b then 1%Z else 0%Z)
  | PFloat f =>
      if PrimFloat.is_nan f then None
      else match trunc_float f with
           | Some z => if in_int64 z && PrimFloat.eqb (float_of_Z z) f
                       then Some z else None
           | None => None
           end
  | _ => None
  end.

Definition is_some {A} (o : option A) : bool :=
  match o with Some _ => true | None => false end.

Definition overflow_float : exn :=
  {| exn_type := "OverflowError"; exn_text := "int too large to convert to float" |}.
Definition overflow_c_long : exn :=
  {| exn_type := "OverflowError";
     exn_text := "Python int too large to convert to C long" |}.

Section Pandas.
Variable E : env.

(** [pd.to_datetime(x, dayfirst=..., errors="coerce")] on one value: a
    Timestamp or NaT. *)
Definition to_datetime_value (dayfirst : bool) (v : pyval) : pyval :=
  if isna v then PNaT
  else match v with
       | PTimestamp d | PDatetime d => PTimestamp d
       | _ => match parse_datetime E dayfirst v with
              | Some d => PTimestamp d
              | None => PNaT
              end
       end.

Definition to_datetime (dayfirst : bool) (s : series) : series :=
  {| s_dtype := DDatetime64;
     s_values := map (to_datetime_value dayfirst) (s_values s) |}.

(** The Series pandas builds from a list of objects: when some of them are
    datetimes and the others are missing, the column is datetime64[ns], its
    entries Timestamps and NaT; otherwise it is an object column. *)
Definition series_of_objects (vs : list pyval) : series :=
  if existsb is_datetime vs && forallb (fun v => is_datetime v || isna v) vs
  then {| s_dtype := DDatetime64;
          s_values := map (fun v => match v with
                                    | PTimestamp d | PDatetime d => PTimestamp d
                                    | _ => PNaT
                                    end) vs |}
  else {| s_dtype := DObject; s_values := vs |}.

(** [s.apply(lambda x: g(x) if pd.notnull(x) else None)] where [g] reads a
    Timestamp.  The results are handed to the Series constructor, which
    infers their dtype again; [apply] on an empty Series gives it back. *)
Definition apply_or_none (g : datetime -> pyval) (s : series) : series :=
  match s_values s with
  | [] => s
  | vs => series_of_objects
            (map (fun x => if notnull x
                           then match x with
                                | PTimestamp d | PDatetime d => g d
                                | _ => x
                                end
                           else PNone) vs)
  end.

(** [lib.maybe_convert_numeric] on one object: numbers and booleans are
    read as they are, None and NaT are missing, anything else is parsed. *)
Definition read_number (v : pyval) : reading :=
  match v with
  | PFloat f => RFloat f
  | PInt z => RInt z
  | PBool b => RBool b
  | PNone | PNaT => RNull
  | _ => match parse_number E v with
         | Some (NInt z) => RInt z
         | Some (NFloat f) => RFloat f
         | None => RNull
         end
  end.

(** [lib.maybe_convert_numeric(values, set(), coerce_numeric=True)] on the
    objects of a column.
    - No object: an empty int64 column.
    - Fast path: the first object is an [int] and every object equals its
      conversion to int64; the column is int64.
    - An [int] beyond the doubles cannot be stored in the float buffer: the
      OverflowError is not among the errors [errors="coerce"] covers.
    - An integer above the signed range next to a negative integer or a
      missing value: the objects come back unconverted.
    - Otherwise float64 as soon as one entry is missing, a float or an
      integer beyond 64 bits (an integer is then stored as the nearest
      double); else uint64 or int64 if one entry is an integer; else bool. *)
Definition maybe_convert_numeric (vs : list pyval) : outcome series :=
  match vs with
  | [] => Ret {| s_dtype := DInt64; s_values := [] |}
  | v0 :: _ =>
      if is_int v0 && forallb (fun v => is_some (fast_int v)) vs then
        Ret {| s_dtype := DInt64;
               s_values := map (fun v => PInt (match fast_int v with
                                               | Some z => z
                                               | None => 0%Z
                                               end)) vs |}
      else if existsb (fun v => match v with
                                | PInt z => negb (finite (float_of_Z z))
                                | _ => false
                                end) vs then
        Raise overflow_float
      else
        let rs := map read_number vs in
        let sint := existsb sint_reading rs in
        let uint := existsb uint_reading rs in
        if uint && (existsb null_reading rs || sint) then
          Ret {| s_dtype := DObject; s_values := vs |}
        else if existsb float_reading rs || (sint && uint) then
          Ret {| s_dtype := DFloat64;
                 s_values := map (fun r => PFloat (float_of_reading r)) rs |}
        else if existsb int_reading rs then
          Ret {| s_dtype := if uint then DUInt64 else DInt64;
                 s_values := map (fun r => PInt (int_of_reading r)) rs |}
        else
          Ret {| s_dtype := DBool;
                 s_values := map (fun r => PBool (bool_of_reading r)) rs |}
  end.

(** [values.view(np.int64)] on an entry of a datetime64 column; NaT is the
    least int64. *)
Definition view_i8 (v : pyval) : pyval :=
  match v with
  | PTimestamp d | PDatetime d => PInt (timestamp_value E d)
  | _ => PInt int64_min
  end.

(** [pd.to_numeric(s, errors="coerce")]: a column of a numeric dtype comes
    back as it is, a datetime64 column as its int64 view, an object column
    converted. *)
Definition to_numeric (s : series) : outcome series :=
  match s_dtype s with
  | DObject => maybe_convert_numeric (s_values s)
  | DDatetime64 =>
      Ret {| s_dtype := DInt64; s_values := map view_i8 (s_values s) |}
  | _ => Ret s
  end.

(** [s.fillna(x)]; in a float64 column an integer [x] is stored as a
    float. *)
Definition fillna (x : pyval) (s : series) : series :=
  let x := match s_dtype s, x with
           | DFloat64, PInt z => PFloat (float_of_Z z)
           | _, _ => x
           end in
  {| s_dtype := s_dtype s;
     s_values := map (fun v => if isna v then x else v) (s_values s) |}.

Definition type_error_int : exn :=
  {| exn_type := "TypeError";
     exn_text := "int() argument must be a string, a bytes-like object or a number" |}.
Definition invalid_literal : exn :=
  {| exn_type := "ValueError"; exn_text := "invalid literal for int() with base 10" |}.
Definition int_casting_nan : exn :=
  {| exn_type := "IntCastingNaNError";
     exn_text := "Cannot convert non-finite values (NA or inf) to integer" |}.
Definition float_nan_to_int : exn :=
  {| exn_type := "ValueError"; exn_text := "cannot convert float NaN to integer" |}.
Definition float_inf_to_int : exn :=
  {| exn_type := "OverflowError";
     exn_text := "cannot convert float infinity to integer" |}.

(** [astype("int64")] on one value of a column of dtype [d].  A float64
    column is refused when it holds a value that is not finite, and is cast
    as C does: truncation, and the least int64 out of range (x86-64).  A
    uint64 column is reinterpreted.  The objects of an object column go
    through [int()]. *)
Definition astype_int64_value (d : dtype) (v : pyval) : outcome pyval :=
  match v with
  | PInt z =>
      if in_int64 z then Ret (PInt z)
      else match d with
           | DUInt64 => Ret (PInt (wrap_int64 z))
           | _ => Raise overflow_c_long
           end
  | PBool b => Ret (PInt (if b then 1 else 0))
  | PFloat f =>
      match trunc_float f, d with
      | Some z, DFloat64 => Ret (PInt (if in_int64 z then z else int64_min))
      | Some z, _ => if in_int64 z then Ret (PInt z) else Raise overflow_c_long
      | None, DFloat64 => Raise int_casting_nan
      | None, _ => Raise (if PrimFloat.is_nan f then float_nan_to_int
                          else float_inf_to_int)
      end
  | PStr _ =>
      match parse_number E v with
      | Some (NInt z) => if in_int64 z then Ret (PInt z) else Raise overflow_c_long
      | _ => Raise invalid_literal
      end
  | _ => Raise type_error_int
  end.

Fixpoint mapM {A B} (f : A -> outcome B) (l : list A) : outcome (list B) :=
  match l with
  | [] => Ret []
  | a :: l' => obind (f a) (fun b => obind (mapM f l') (fun bs => Ret (b :: bs)))
  end.

Definition astype_int64 (s : series) : outcome series :=
  obind (mapM (astype_int64_value (s_dtype s)) (s_values s))
        (fun vs => Ret {| s_dtype := DInt64; s_values := vs |}).

(** [bool(x)] *)
Definition truthy (v : pyval) : bool :=
  match v with
  | PNone => false
  | PBool b => b
  | PInt z => negb (z =? 0)%Z
  | PFloat f => negb (PrimFloat.is_zero f)
  | PStr s => negb (String.eqb s "")
  | _ => true
  end.

(** [astype(bool)] *)
Definition astype_bool (s : series) : series :=
  {| s_dtype := DBool; s_values := map (fun v => PBool (truthy v)) (s_values s) |}.

(** [astype(object)] *)
Definition astype_object (s : series) : series :=
  {| s_dtype := DObject; s_values := s_values s |}.

(** [s.where(pd.notnull(s), None)].  In an object column the entries where
    the condition fails become None.  A float64 column takes None for its
    own missing value: the entries stay nan and the column float64. *)
Definition where_notnull_none (s : series) : series :=
  match s_dtype s with
  | DObject =>
      {| s_dtype := DObject;
         s_values := map (fun v => if notnull v then v else PNone) (s_values s) |}
  | _ => s
  end.

(** [df[col] = f(df[col])] for an [f] that takes a Series: when the label
    repeats, [df[col]] is a DataFrame and [f] refuses it with exception
    [e]. *)
Definition update_series (e : exn) (f : series -> outcome series)
    (col : string) (df : dataframe) : outcome dataframe :=
  match labelled col df with
  | [s] => obind (f s) (fun s' => Ret (update_cols (fun _ => s') col df))
  | _ => Raise e
  end.

Definition duplicate_keys : exn :=
  {| exn_type := "ValueError"; exn_text := "cannot assemble with duplicate keys" |}.
Definition not_a_series : exn :=
  {| exn_type := "TypeError";
     exn_text := "arg must be a list, tuple, 1-d array, or Series" |}.
Definition no_dtype : exn :=
  {| exn_type := "AttributeError";
     exn_text := "'DataFrame' object has no attribute 'dtype'" |}.

(** The body of the first loop for one item of [schema_map]. *)
Definition cast_column (df : dataframe) (item : string * string)
  : outcome dataframe :=
  let (col, sql_type) := item in
  if negb (mem col (columns df)) then Ret df
  else
    let sql_type := Str.lower sql_type in
    let target := match dict_get SQLSERVER_TO_PY sql_type with
                  | Some t => t
                  | None => "object"
                  end in
    if mem sql_type DATETIME_TYPES then
      update_series duplicate_keys
        (fun s => Ret (apply_or_none PDatetime (to_datetime false s))) col df
    else if mem sql_type DATE_TYPES then
      update_series duplicate_keys
        (fun s => Ret (apply_or_none (fun d => PDate (dt_date d))
                         (to_datetime true s))) col df
    else if mem sql_type TIME_TYPES then
      update_series duplicate_keys
        (fun s => Ret (apply_or_none (fun d => PTime (dt_time d))
                         (to_datetime false s))) col df
    else if String.eqb target "int64" then
      update_series not_a_series
        (fun s => obind (to_numeric s)
                        (fun s => astype_int64 (fillna (PInt 0) s))) col df
    else if String.eqb target "float64" then
      update_series not_a_series to_numeric col df
    else if String.eqb target "bool" then
      Ret (update_cols (fun s => astype_bool (fillna (PBool false) s)) col df)
    else
      Ret (update_cols astype_object col df).

(** The body of the second loop for one label of [df.columns].  When the
    label repeats, [df[col]] is a DataFrame, which has no [dtype]. *)
Definition normalize_nulls (df : dataframe) (col : string) : outcome dataframe :=
  match labelled col df with
  | [s] =>
      if dtype_eqb (s_dtype s) DFloat64 || dtype_eqb (s_dtype s) DObject
      then Ret (update_cols where_notnull_none col df)
      else Ret df
  | _ => Raise no_dtype
  end.

Fixpoint foldM {A B} (f : A -> B -> outcome A) (l : list B) (a : A) : outcome A :=
  match l with
  | [] => Ret a
  | b :: l' => obind (f a b) (foldM f l')
  end.

Definition cast_df_to_schema (df : dataframe) (schema_map : dict string)
  : outcome dataframe :=
  obind (foldM cast_column schema_map df)
        (fun df => foldM normalize_nulls (columns df) df).

End Pandas.

(* ================================================================= *)
(** ** State and exceptions *)

Definition row : Type := list pyval.

(** What a run leaves behind, besides the tables. *)
Inductive event : Type :=
| EvNotify (erro_msg contexto : string)     (* enviar_email_erro was called *)
| EvMail (mensagem : string)                (* PC_SEND_MAIL ran with this message *)
| EvOracleQuery (stmt : string)             (* oracle.get_pandas_df(stmt) was issued *)
| EvSafeInsert (table : string) (df : dataframe) (target_fields : list string).
                                            (* safe_insert_rows was called *)

Record world := {
  (** the VALUE of the TB_CONFIG row RODA_INTEGRACAO_APS: no row, NULL or a
      text *)
  tb_config : option (option string);
  (** the rows of the SQL Server tables, by name *)
  mssql_tables : string -> list row;
  (** the rows of SYSDATACOM.TB_LSB_INT_PROGRAMACAO *)
  tb_programacao : list row;
  (** the events so far, latest first *)
  trace : list event
}.

Definition M (A : Type) : Type := world -> outcome A * world.

Definition ret {A} (a : A) : M A := fun w => (Ret a, w).
Definition raise {A} (e : exn) : M A := fun w => (Raise e, w).
Definition bind {A B} (c : M A) (k : A -> M B) : M B :=
  fun w => match c w with
           | (Ret a, w') => k a w'
           | (Raise e, w') => (Raise e, w')
           end.

Notation "x <- c ;; k" := (bind c (fun x => k))
  (at level 61, c at next level, right associativity).
Notation "c ;;; k" := (bind c (fun _ => k))
  (at level 61, right associativity).

(** [try: c except Exception as e: h(e)] *)
Definition try_except {A} (c : M A) (h : exn -> M A) : M A :=
  fun w => match c w with
           | (Ret a, w') => (Ret a, w')
           | (Raise e, w') => h e w'
           end.

Definition lift {A} (o : outcome A) : M A := fun w => (o, w).

(** An operation that may only fail. *)
Definition check (fault : option exn) : M unit :=
  match fault with
  | Some e => raise e
  | None => ret tt
  end.

Definition log (ev : event) : M unit :=
  fun w => (Ret tt, {| tb_config := tb_config w; mssql_tables := mssql_tables w;
                       tb_programacao := tb_programacao w;
                       trace := ev :: trace w |}).

Definition set_mssql_table (table : string) (rows : list row) : M unit :=
  fun w => (Ret tt, {| tb_config := tb_config w;
                       mssql_tables := fun t => if String.eqb t table then rows
                                                else mssql_tables w t;
                       tb_programacao := tb_programacao w;
                       trace := trace w |}).

Definition set_programacao (rows : list row) : M unit :=
  fun w => (Ret tt, {| tb_config := tb_config w; mssql_tables := mssql_tables w;
                       tb_programacao := rows; trace := trace w |}).

Definition set_config (v : option (option string)) : M unit :=
  fun w => (Ret tt, {| tb_config := v; mssql_tables := mssql_tables w;
                       tb_programacao := tb_programacao w; trace := trace w |}).

Definition get_world : M world := fun w => (Ret w, w).

(* ================================================================= *)
(** ** enviar_email_erro (lines 60-102) *)

Definition colon : ascii := ":"%char.
Definition newline : string := Str.chr 10.

(** Lines 67-75: the part of the error text that goes into the mail. *)
Definition erro_principal_of (erro_msg : string) : string :=
  let erro_principal :=
    if Str.has_char colon erro_msg
    then Str.strip (Str.before_first colon erro_msg)
    else Str.strip erro_msg in
  if (200 <? String.length erro_principal)%nat
  then Str.take 200 erro_principal ++ "..."
  else erro_principal.

(** Lines 78-81. *)
Definition mensagem_of (erro_msg contexto : string) : string :=
  if negb (String.eqb contexto "")
  then "Falha identificada durante: " ++ contexto ++ newline ++ newline
       ++ "Erro: " ++ erro_principal_of erro_msg
  else "Erro: " ++ erro_principal_of erro_msg.

Section Dag.
Variable E : env.

(** The whole body sits in a [try] whose handler only prints: the function
    never raises. *)
Definition enviar_email_erro (erro_msg contexto : string) : M unit :=
  log (EvNotify erro_msg contexto) ;;;
  try_except
    (let mensagem := mensagem_of erro_msg contexto in
     check (get_oracle_hook E) ;;;
     check (send_mail_fault E mensagem) ;;;
     log (EvMail mensagem))
    (fun email_error => ret tt).

(* ================================================================= *)
(** ** get_sqlserver_schema (lines 104-126) *)

(** Latin-1 letters of the messages. *)
Definition a_tilde : string := Str.chr 227.
Definition c_cedilla : string := Str.chr 231.
Definition a_acute : string := Str.chr 225.
Definition a_circ : string := Str.chr 226.
Definition o_acute : string := Str.chr 243.

Definition dot : ascii := "."%char.

(** [{col.lower(): dtype.lower() for col, dtype in rows}] *)
Definition schema_of_rows (rows : list (string * string)) : dict string :=
  fold_left (fun d r => dict_set d (Str.lower (fst r)) (Str.lower (snd r))) rows [].

Definition get_sqlserver_schema (full_name : string) : outcome (dict string) :=
  let (schema, name) :=
    if Str.has_char dot full_name
    then (Str.before_first dot full_name, Str.after_first dot full_name)
    else ("dbo", full_name) in
  obind (mssql_get_records E schema name) (fun rows =>
    match rows with
    | [] => Raise {| exn_type := "ValueError";
                     exn_text := "Colunas n" ++ a_tilde ++ "o encontradas para "
                                 ++ full_name |}
    | _ => Ret (schema_of_rows rows)
    end).

(* ================================================================= *)
(** ** safe_insert_rows (lines 204-229) *)

(** The dtype of [df.values], the array [iterrows] cuts the rows from: the
    dtype of the columns when they agree, float64 for a mix of integer and
    floating-point columns, object otherwise. *)
Definition values_dtype (df : dataframe) : dtype :=
  match map (fun c => s_dtype (snd c)) (df_cols df) with
  | [] => DObject
  | d :: ds =>
      if forallb (dtype_eqb d) ds then d
      else if forallb (fun d' => dtype_eqb d' DInt64 || dtype_eqb d' DUInt64
                                 || dtype_eqb d' DFloat64) (d :: ds)
      then DFloat64
      else DObject
  end.

(** A cell as a row of [iterrows] holds it: in a float64 array an integer
    is the nearest float. *)
Definition row_value (d : dtype) (v : pyval) : pyval :=
  match d, v with
  | DFloat64, PInt z => PFloat (float_of_Z z)
  | _, _ => v
  end.

(** One cell of a row handed to [insert_rows] (lines 213-221). *)
Definition safe_value (value : pyval) : pyval :=
  if isna value then PNone
  else match value with
       | PTimestamp d => PDatetime d
       | _ => value
       end.

Definition safe_rows (df : dataframe) (target_fields : list string) : list row :=
  map (fun i => map (fun field =>
                       match labelled field df with
                       | s :: _ => safe_value (row_value (values_dtype df)
                                                 (cell i s))
                       | [] => PNone
                       end) target_fields)
      (seq 0 (df_rows df)).

(** [hook.insert_rows]: the rows are appended, up to the fault if any. *)
Definition insert_into (fault : option (nat * exn)) (old rows : list row)
  : list row * option exn :=
  match fault with
  | Some (n, e) => ((old ++ firstn n rows)%list, Some e)
  | None => ((old ++ rows)%list, None)
  end.

Definition safe_insert_rows (table : string) (df : dataframe)
    (target_fields : list string) : M unit :=
  log (EvSafeInsert table df target_fields) ;;;
  w <- get_world ;;
  let (rows, fault) := insert_into (mssql_insert_fault E table)
                         (mssql_tables w table) (safe_rows df target_fields) in
  set_mssql_table table rows ;;;
  check fault.

(* ================================================================= *)
(** ** checa_flag (lines 231-249) *)

Definition ctx_flag : string :=
  "verifica" ++ c_cedilla ++ a_tilde ++ "o da flag de execu" ++ c_cedilla
  ++ a_tilde ++ "o".

(** [oracle.get_first(sql)]: the row, if any, as its single VALUE. *)
Definition select_flag (fault : option exn) : M (option (option string)) :=
  check fault ;;;
  w <- get_world ;;
  ret (tb_config w).

(** The body of the [try]. *)
Definition checa_flag_body : M string :=
  check (get_oracle_hook E) ;;;
  flag <- select_flag (flag_select_fault E) ;;
  ret (match flag with
       | Some (Some v) => if String.eqb v "S" then "extrai_envia_sqlserver"
                          else "fim_sem_execucao"
       | _ => "fim_sem_execucao"
       end).

Definition checa_flag : M string :=
  try_except checa_flag_body
    (fun e => enviar_email_erro (exn_text e) ctx_flag ;;; raise e).

(* ================================================================= *)
(** ** extrai_envia_sqlserver (lines 251-345) *)

(** Lines 263-267: the statements of the queries file. *)
Definition selects_of (lines : list string) : list string :=
  map (fun line => Str.replace ";" ""
                     (Str.strip (Str.lstrip_by (Ascii.eqb "-"%char) line)))
      (List.filter (fun line => Str.startswith "--select"
                                  (Str.lower (Str.strip line))) lines).

(** Lines 290-306: from the result table to the table handed to the
    writer. *)
Definition reconcile (df : dataframe) (schema : dict string) : dataframe :=
  let df := normalize_column_names df schema in
  let missing_cols :=
    List.filter (fun col => negb (mem col (columns df))) (dict_keys schema) in
  let df := fold_left (fun df col => set_none col df) missing_cols df in
  let extra_cols :=
    List.filter (fun col => negb (mem col (dict_keys schema))) (columns df) in
  match extra_cols with
  | [] => df
  | _ => df_drop extra_cols df
  end.

Definition prepare_table (df : dataframe) (schema : dict string)
  : outcome dataframe :=
  obind (cast_df_to_schema E (reconcile df schema) schema)
        (fun df => df_select (dict_keys schema) df).

(** Lines 286-333, once [destino] is known. *)
Definition load_table (destino : string) (df : dataframe) : M unit :=
  schema <- lift (get_sqlserver_schema destino) ;;
  df <- lift (prepare_table df schema) ;;
  check (mssql_truncate_fault E destino) ;;;
  set_mssql_table destino [] ;;;
  safe_insert_rows destino df (dict_keys schema).

Definition no_group : exn :=
  {| exn_type := "AttributeError";
     exn_text := "'NoneType' object has no attribute 'group'" |}.

(** The body of the inner [try] for one statement.  [destino] is a local of
    the function, not of the loop: the second component is its value when
    the body ends, [None] while it is unbound. *)
Definition process_statement (stmt : string) (destino : option string)
  : world -> outcome unit * option string * world :=
  fun w =>
    let w := snd (log (EvOracleQuery stmt) w) in
    match oracle_get_pandas_df E stmt with
    | Raise e => (Raise e, destino, w)
    | Ret df =>
        let df := lower_columns df in
        if df_empty df then (Ret tt, destino, w)
        else match derive_destino stmt with
             | None => (Raise no_group, destino, w)
             | Some d => let (r, w') := load_table d df w in (r, Some d, w')
             end
    end.

(** [destino if 'destino' in locals() else 'desconhecida'] *)
Definition destino_or_unknown (destino : option string) : string :=
  match destino with
  | Some d => d
  | None => "desconhecida"
  end.

Definition ctx_tabela (destino : option string) : string :=
  "processamento da tabela " ++ destino_or_unknown destino.

(** The loop of lines 269-341 with its handler. *)
Fixpoint for_selects (selects : list string) (destino : option string) : M unit :=
  match selects with
  | [] => ret tt
  | stmt :: rest =>
      fun w =>
        match process_statement stmt destino w with
        | (Ret _, destino', w') => for_selects rest destino' w'
        | (Raise table_error, destino', w') =>
            (enviar_email_erro (exn_text table_error) (ctx_tabela destino') ;;;
             raise table_error) w'
        end
  end.

Definition ctx_extracao : string :=
  "extra" ++ c_cedilla ++ a_tilde ++ "o e envio para SQL Server".

Definition file_not_found : exn :=
  {| exn_type := "FileNotFoundError";
     exn_text := "Arquivo n" ++ a_tilde
                 ++ "o encontrado: /root/airflow/include/queries_integra_aps.sql" |}.

(** The body of the outer [try]. *)
Definition extrai_envia_sqlserver_body : M unit :=
  match queries_file E with
  | None => raise file_not_found
  | Some lines =>
      check (get_oracle_hook E) ;;;
      check (get_mssql_hook E) ;;;
      for_selects (selects_of lines) None
  end.

Definition extrai_envia_sqlserver : M unit :=
  try_except extrai_envia_sqlserver_body
    (fun e => enviar_email_erro (exn_text e) ctx_extracao ;;; raise e).

(* ================================================================= *)
(** ** copia_programacao (lines 347-366) *)

Definition ctx_copia : string :=
  "c" ++ o_acute ++ "pia da programa" ++ c_cedilla ++ a_tilde ++ "o".

(** The body of the [try]. *)
Definition copia_programacao_body : M unit :=
  check (get_mssql_hook E) ;;;
  check (get_oracle_hook E) ;;;
  df <- lift (mssql_programacao E) ;;
  if df_empty df then ret tt
  else
    check (oracle_truncate_fault E) ;;;
    set_programacao [] ;;;
    w <- get_world ;;
    let (rows, fault) := insert_into (oracle_insert_fault E)
                           (tb_programacao w) (itertuples df) in
    set_programacao rows ;;;
    check fault.

Definition copia_programacao : M unit :=
  try_except copia_programacao_body
    (fun e => enviar_email_erro (exn_text e) ctx_copia ;;; raise e).

(* ================================================================= *)
(** ** ajusta_roda_integraca_aps (lines 368-404) *)

Definition ctx_ajusta : string :=
  "atualiza" ++ c_cedilla ++ a_tilde ++ "o do par" ++ a_circ
  ++ "metro RODA_INTEGRACAO_APS".

Definition falha_verificacao : exn :=
  {| exn_type := "Exception";
     exn_text := "Falha ao verificar atualiza" ++ c_cedilla ++ a_tilde
                 ++ "o do par" ++ a_circ ++ "metro RODA_INTEGRACAO_APS" |}.

(** [UPDATE TB_CONFIG SET VALUE = 'N' WHERE PARAM = ...]: changes the row if
    there is one. *)
Definition update_flag : M unit :=
  check (flag_update_fault E) ;;;
  w <- get_world ;;
  match tb_config w with
  | Some _ => set_config (Some (Some "N"))
  | None => ret tt
  end.

(** The body of the [try]. *)
Definition ajusta_roda_integraca_aps_body : M (option (option string)) :=
  check (get_oracle_hook E) ;;;
  update_flag ;;;
  result <- select_flag (flag_verify_fault E) ;;
  match result with
  | Some (Some v) => if String.eqb v "N" then ret result
                     else raise falha_verificacao
  | _ => raise falha_verificacao
  end.

Definition ajusta_roda_integraca_aps : M (option (option string)) :=
  try_except ajusta_roda_integraca_aps_body
    (fun e => enviar_email_erro (exn_text e) ctx_ajusta ;;; raise e).

(* ================================================================= *)
(** ** The DAG (lines 406-452) *)

Inductive task_state : Type := Success | Failed | Skipped | UpstreamFailed.

Record dag_run := {
  st_inicio : task_state;
  st_checa_flag : task_state;
  st_extrai_envia : task_state;
  st_copia_prog : task_state;
  st_ajusta_tb_config : task_state;
  st_fim_ok : task_state;
  st_fim_skip : task_state
}.

(** A task under the default trigger rule (all_success) with one upstream
    task: it runs only after a success; a skip is passed on, a failure
    becomes upstream_failed. *)
Definition run_after {A} (upstream : task_state) (task : M A)
  : world -> task_state * world :=
  fun w =>
    match upstream with
    | Success => match task w with
                 | (Ret _, w') => (Success, w')
                 | (Raise _, w') => (Failed, w')
                 end
    | Skipped => (Skipped, w)
    | Failed | UpstreamFailed => (UpstreamFailed, w)
    end.

(** A DummyOperator under TriggerRule.NONE_FAILED. *)
Definition dummy_none_failed (upstream : task_state) : task_state :=
  match upstream with
  | Success | Skipped => Success
  | Failed | UpstreamFailed => UpstreamFailed
  end.

(** The state the branch operator leaves a direct downstream task in before
    the task is considered: skipped when it is not the one chosen. *)
Definition branch_to (chosen : outcome string) (task_id : string) : task_state :=
  match chosen with
  | Ret followed => if String.eqb followed task_id then Success else Skipped
  | Raise _ => Failed
  end.

(** inicio >> branch; branch >> extrai_envia >> copia_prog >>
    ajusta_tb_config >> fim_ok; branch >> fim_skip *)
Definition run_dag (w : world) : dag_run * world :=
  let (chosen, w1) := checa_flag w in
  let s_branch := match chosen with Ret _ => Success | Raise _ => Failed end in
  let (s_extrai, w2) :=
    run_after (branch_to chosen "extrai_envia_sqlserver") extrai_envia_sqlserver w1 in
  let (s_copia, w3) := run_after s_extrai copia_programacao w2 in
  let (s_ajusta, w4) := run_after s_copia ajusta_roda_integraca_aps w3 in
  let (s_skip, w5) :=
    run_after (branch_to chosen "fim_sem_execucao") (ret tt) w4 in
  ({| st_inicio := Success;
      st_checa_flag := s_branch;
      st_extrai_envia := s_extrai;
      st_copia_prog := s_copia;
      st_ajusta_tb_config := s_ajusta;
      st_fim_ok := dummy_none_failed s_ajusta;
      st_fim_skip := s_skip |}, w5).

End Dag.

(* ================================================================= *)
(** * Vocabulary of the properties *)



(** The schema name an incoming column is matched with, as the priority
    rule reads: the name itself when the schema has it; else its alias when
    the schema has that; else the schema name of the same normalized form
    that comes last in schema order; else none (the column is extra). *)
Definition last_normalized_match (df_col : string) (keys : list string)
  : option string :=
  find (fun k => String.eqb (normalized k) (normalized df_col)) (rev keys).

Definition resolve (mapping : dict string) (schema_map : dict string)
    (df_col : string) : option string :=
  if mem df_col (dict_keys schema_map) then Some df_col
  else match dict_get mapping df_col with
       | Some target =>
           if mem target (dict_keys schema_map) then Some target
           else last_normalized_match df_col (dict_keys schema_map)
       | None => last_normalized_match df_col (dict_keys schema_map)
       end.

(** The schema names with the normalized form of an incoming name. *)
Definition normalized_matches (df_col : string) (keys : list string)
  : list string :=
  List.filter (fun k => String.eqb (normalized k) (normalized df_col)) keys.

(** The entry one turn of the loop of [normalize_column_names] makes in
    [rename_map] for a column, if any. *)
Definition rename_entry (mapping schema_map : dict string) (df_col : string)
  : option string :=
  if dict_mem df_col schema_map then None
  else
    match (match dict_get mapping df_col with
           | Some target => if dict_mem target schema_map then Some target else None
           | None => None
           end) with
    | Some target => Some target
    | None => dict_get (normalized_schema_of (dict_keys schema_map))
                (normalized df_col)
    end.

(** The label a column carries after [df.rename]. *)
Definition new_label (target : option string) (df_col : string) : string :=
  match target with
  | Some new => new
  | None => df_col
  end.

(** A call of the writer is in order when the table it was handed has the
    columns of the schema read for its destination, in that order, and the
    same list as target fields. *)
Definition writer_in_order (E : env) (ev : event) : Prop :=
  match ev with
  | EvSafeInsert table df target_fields =>
      exists schema, get_sqlserver_schema E table = Ret schema
                     /\ columns df = dict_keys schema
                     /\ target_fields = dict_keys schema
  | _ => True
  end.

(** The destination type tags, and the tag [cast_df_to_schema] treats a
    declared SQL Server type as (the order of its branches). *)
Inductive type_tag : Type :=
| TTimestamp | TDate | TTime | TInteger | TFloat | TBoolean | TText.

Definition tag_of (sql_type : string) : type_tag :=
  let sql_type := Str.lower sql_type in
  let target := match dict_get SQLSERVER_TO_PY sql_type with
                | Some t => t
                | None => "object"
                end in
  if mem sql_type DATETIME_TYPES then TTimestamp
  else if mem sql_type DATE_TYPES then TDate
  else if mem sql_type TIME_TYPES then TTime
  else if String.eqb target "int64" then TInteger
  else if String.eqb target "float64" then TFloat
  else if String.eqb target "bool" then TBoolean
  else TText.

(** What the first loop does to a column of a given tag. *)
Definition cast_series (E : env) (tag : type_tag) (s : series) : outcome series :=
  match tag with
  | TTimestamp => Ret (apply_or_none PDatetime (to_datetime E false s))
  | TDate => Ret (apply_or_none (fun d => PDate (dt_date d)) (to_datetime E true s))
  | TTime => Ret (apply_or_none (fun d => PTime (dt_time d)) (to_datetime E false s))
  | TInteger => obind (to_numeric E s)
                      (fun s => astype_int64 E (fillna (PInt 0) s))
  | TFloat => to_numeric E s
  | TBoolean => Ret (astype_bool (fillna (PBool false) s))
  | TText => Ret (astype_object s)
  end.

(** What the second loop does to a column. *)
Definition null_pass (s : series) : series :=
  if dtype_eqb (s_dtype s) DFloat64 || dtype_eqb (s_dtype s) DObject
  then where_notnull_none s else s.













(** One turn of the first loop, seen from one column. *)
Definition step_rel (E : env) (col : string) (tag : type_tag)
    (c c' : string * series) : Prop :=
  fst c' = fst c /\
  if String.eqb (fst c) col
  then cast_series E tag (snd c) = Ret (snd c')
  else snd c' = snd c.

(** The first loop, seen from one column. *)
Definition first_rel (E : env) (schema_map : dict string)
    (c c' : string * series) : Prop :=
  fst c' = fst c /\
  match dict_get schema_map (fst c) with
  | Some sql_type => cast_series E (tag_of sql_type) (snd c) = Ret (snd c')
  | None => snd c' = snd c
  end.

(** The second loop over the labels [ls], seen from one column. *)
Definition second_rel (ls : list string) (c c' : string * series) : Prop :=
  fst c' = fst c /\
  snd c' = if mem (fst c) ls then null_pass (snd c) else snd c.

(** ** A sample installation

    Three statements in the queries file; the first destination exists, the
    second has no columns in the catalog, the third is never reached. *)

Fixpoint digits_value (s : string) (acc : Z) : option Z :=
  match s with
  | EmptyString => Some acc
  | String c s' =>
      let n := nat_of_ascii c in
      if ((48 <=? n) && (n <=? 57))%nat
      then digits_value s' (10 * acc + Z.of_nat (n - 48))%Z
      else None
  end.

Definition sample_parse_number (v : pyval) : option num :=
  match v with
  | PStr EmptyString => None
  | PStr s => option_map NInt (digits_value s 0%Z)
  | _ => None
  end.

Definition sample_lines : list string :=
  [ "-- statements of the integration" ++ newline;
    "--SELECT * FROM TABLE(PKG_APS.FC_RETURN_RS_REL_ESTOQUES());" ++ newline;
    "--select * from table(pkg_aps.fc_return_rs_lote);" ++ newline;
    "--select * from table(pkg_aps.fc_return_rs_item)" ++ newline ].

Definition stmt_estoques : string :=
  "SELECT * FROM TABLE(PKG_APS.FC_RETURN_RS_REL_ESTOQUES())".
Definition stmt_lote : string := "select * from table(pkg_aps.fc_return_rs_lote)".
Definition stmt_item : string := "select * from table(pkg_aps.fc_return_rs_item)".

Definition object_column (label : string) (values : list pyval)
  : string * series :=
  (label, {| s_dtype := DObject; s_values := values |}).

Definition estoques_result : dataframe :=
  {| df_rows := 2;
     df_cols := [ object_column "COD_ITEM" [PStr "A1"; PStr "B2"];
                  object_column "QtdSaldo" [PStr "10"; PStr "n/d"];
                  object_column "ATIVO" [PStr "abc"; PNone];
                  object_column "OBS" [PNone; PStr "x"] ] |}.

Definition lote_result : dataframe :=
  {| df_rows := 1; df_cols := [ object_column "LOTE" [PStr "L1"] ] |}.

Definition estoque_catalog : list (string * string) :=
  [ ("COD_ITEM", "varchar"); ("QTD_SALDO", "int"); ("ATIVO", "bit");
    ("DT_MOV", "datetime"); ("VL_CUSTO", "decimal") ].

Definition programacao_result : dataframe :=
  {| df_rows := 2;
     df_cols := [ (("ORDEM", {| s_dtype := DInt64; s_values := [PInt 1; PInt 2] |}));
                  object_column "RECURSO" [PStr "M1"; PStr "M2"] ] |}.

Definition empty_programacao : dataframe :=
  {| df_rows := 0;
     df_cols := [ (("ORDEM", {| s_dtype := DInt64; s_values := [] |}));
                  object_column "RECURSO" [] ] |}.

Definition connection_lost : exn :=
  {| exn_type := "DatabaseError"; exn_text := "ORA-03113: end-of-file on communication channel" |}.

(** The installation, with the queries file, the fault of the flag query
    and the answer of the schedule query left open. *)
Definition sample_env_of (lines : list string) (flag_fault : option exn)
    (programacao : outcome dataframe) : env :=
  {| parse_number := sample_parse_number;
     parse_datetime := fun _ _ => None;
     timestamp_value := fun _ => 0%Z;
     queries_file := Some lines;
     get_oracle_hook := None;
     get_mssql_hook := None;
     oracle_get_pandas_df := fun stmt =>
       if String.eqb stmt stmt_estoques then Ret estoques_result
       else if String.eqb stmt stmt_lote then Ret lote_result
       else Raise connection_lost;
     mssql_get_records := fun schema name =>
       if String.eqb schema "dbo" && String.eqb name "estoque"
       then Ret estoque_catalog else Ret [];
     mssql_truncate_fault := fun _ => None;
     mssql_insert_fault := fun _ => None;
     mssql_programacao := programacao;
     oracle_truncate_fault := None;
     oracle_insert_fault := None;
     flag_select_fault := flag_fault;
     flag_update_fault := None;
     flag_verify_fault := None;
     send_mail_fault := fun _ => None |}.

Definition sample_env : option exn -> outcome dataframe -> env :=
  sample_env_of sample_lines.

Definition sample_world (flag : option (option string)) : world :=
  {| tb_config := flag;
     mssql_tables := fun _ => [[PStr "stale"]];
     tb_programacao := [[PInt 9; PStr "M9"]];
     trace := [] |}.

Definition sample_E : env := sample_env None (Ret programacao_result).
Definition sample_schema : dict string := schema_of_rows estoque_catalog.
Definition sample_reconciled : dataframe :=
  reconcile (lower_columns estoques_result) sample_schema.

(** The sample table after the cast. *)
Definition sample_coerced : dataframe :=
  {| df_rows := 2;
     df_cols :=
       [ object_column "cod_item" [PStr "A1"; PStr "B2"];
         ("qtd_saldo", {| s_dtype := DInt64; s_values := [PInt 10; PInt 0] |});
         ("ativo", {| s_dtype := DBool; s_values := [PBool true; PBool false] |});
         object_column "dt_mov" [PNone; PNone];
         ("vl_custo", {| s_dtype := DFloat64;
                         s_values := [PFloat PrimFloat.nan;
                                      PFloat PrimFloat.nan] |}) ] |}.




(** The fixed text of a message, before the part taken from the error. *)
Definition heading (contexto : string) : string :=
  if negb (String.eqb contexto "")
  then "Falha identificada durante: " ++ contexto ++ newline ++ newline
       ++ "Erro: "
  else "Erro: ".

(** ** Observations on a run *)

(** The world with more events on its trace. *)
Definition add_trace (evs : list event) (w : world) : world :=
  {| tb_config := tb_config w; mssql_tables := mssql_tables w;
     tb_programacao := tb_programacao w; trace := (evs ++ trace w)%list |}.

(** What a call of [enviar_email_erro] leaves on the trace, latest first:
    the call, and the mail when the transport works. *)
Definition mail_events (E : env) (erro_msg contexto : string) : list event :=
  match get_oracle_hook E, send_mail_fault E (mensagem_of erro_msg contexto) with
  | None, None => [EvMail (mensagem_of erro_msg contexto); EvNotify erro_msg contexto]
  | _, _ => [EvNotify erro_msg contexto]
  end.

(** The notifications triggered so far, latest first: error text and
    context. *)
Fixpoint notified_in (evs : list event) : list (string * string) :=
  match evs with
  | [] => []
  | EvNotify erro_msg contexto :: evs' => (erro_msg, contexto) :: notified_in evs'
  | _ :: evs' => notified_in evs'
  end.

Definition notified (w : world) : list (string * string) := notified_in (trace w).

(** The statements sent to Oracle so far, latest first. *)
Fixpoint queries_in (evs : list event) : list string :=
  match evs with
  | [] => []
  | EvOracleQuery stmt :: evs' => stmt :: queries_in evs'
  | _ :: evs' => queries_in evs'
  end.

Definition queries (w : world) : list string := queries_in (trace w).

(** What reading the run-enable flag gives at the gate. *)
Definition flag_read (E : env) (w : world) : outcome (option (option string)) :=
  match get_oracle_hook E, flag_select_fault E with
  | Some e, _ => Raise e
  | None, Some e => Raise e
  | None, None => Ret (tb_config w)
  end.

(** The extraction task was executed. *)
Definition extraction_ran (run : dag_run) : Prop :=
  st_extrai_envia run = Success \/ st_extrai_envia run = Failed.

(** The terminal state of a run the gate turned away. *)
Definition skipped_no_op (run : dag_run) : Prop :=
  st_checa_flag run = Success /\ st_fim_skip run = Success
  /\ st_extrai_envia run = Skipped /\ st_copia_prog run = Skipped
  /\ st_ajusta_tb_config run = Skipped.

(** The terminal state of a run whose gate task failed. *)
Definition gate_failed (run : dag_run) : Prop :=
  st_checa_flag run = Failed /\ st_fim_skip run = UpstreamFailed
  /\ st_extrai_envia run = UpstreamFailed /\ st_copia_prog run = UpstreamFailed
  /\ st_ajusta_tb_config run = UpstreamFailed /\ st_fim_ok run = UpstreamFailed.

(** The statements of a prefix of the loop are all processed without a
    failure: the value of the local [destino] and the world they leave. *)
Fixpoint run_ok (E : env) (selects : list string) (destino : option string)
    (w : world) : option (option string * world) :=
  match selects with
  | [] => Some (destino, w)
  | stmt :: rest =>
      match process_statement E stmt destino w with
      | (Ret _, destino', w') => run_ok E rest destino' w'
      | (Raise _, _, _) => None
      end
  end.

(** What stops the extraction before its loop, if anything. *)
Definition setup_fault (E : env) : option exn :=
  match queries_file E with
  | None => Some file_not_found
  | Some _ =>
      match get_oracle_hook E with
      | Some e => Some e
      | None => get_mssql_hook E
      end
  end.

(** The task the branch operator follows for a value of the flag. *)
Definition followed_task (flag : option (option string)) : string :=
  match flag with
  | Some (Some v) => if String.eqb v "S" then "extrai_envia_sqlserver"
                     else "fim_sem_execucao"
  | _ => "fim_sem_execucao"
  end.

(** A computation triggers no notification. *)
Definition quiet {A} (c : M A) : Prop :=
  forall w, notified (snd (c w)) = notified w.

(** A stage that ends well has notified nobody; one that raises has
    notified once, with the text of what it raises and its own context. *)
Definition caught_once {A} (contexto : string) (stage : M A) (w : world) : Prop :=
  match stage w with
  | (Ret _, w') => notified w' = notified w
  | (Raise e, w') => notified w' = (exn_text e, contexto) :: notified w
  end.

(** The failure a run of the copy meets first, if any, in the order of the
    code: the two connections, the query, and for a source that is not
    empty the TRUNCATE and the insert. *)
Definition copia_fault (E : env) : option exn :=
  match get_mssql_hook E with
  | Some e => Some e
  | None =>
      match get_oracle_hook E with
      | Some e => Some e
      | None =>
          match mssql_programacao E with
          | Raise e => Some e
          | Ret df =>
              if df_empty df then None
              else match oracle_truncate_fault E with
                   | Some e => Some e
                   | None => option_map snd (oracle_insert_fault E)
                   end
          end
      end
  end.

(** The failure the flag reset meets first, if any: the connection, the
    UPDATE, the SELECT, and the verification when the row is missing. *)
Definition ajusta_fault (E : env) (w : world) : option exn :=
  match get_oracle_hook E with
  | Some e => Some e
  | None =>
      match flag_update_fault E with
      | Some e => Some e
      | None =>
          match flag_verify_fault E with
          | Some e => Some e
          | None => match tb_config w with
                    | Some _ => None
                    | None => Some falha_verificacao
                    end
          end
      end
  end.

(** The failure the processing of one statement meets first, if any: the
    query, the search for the [table(...)] clause, the schema, the
    preparation of the table, the TRUNCATE and the insert. *)
Definition statement_fault (E : env) (stmt : string) : option exn :=
  match oracle_get_pandas_df E stmt with
  | Raise e => Some e
  | Ret df =>
      if df_empty (lower_columns df) then None
      else
        match derive_destino stmt with
        | None => Some no_group
        | Some destino =>
            match get_sqlserver_schema E destino with
            | Raise e => Some e
            | Ret schema =>
                match prepare_table E (lower_columns df) schema with
                | Raise e => Some e
                | Ret _ =>
                    match mssql_truncate_fault E destino with
                    | Some e => Some e
                    | None => option_map snd (mssql_insert_fault E destino)
                    end
                end
            end
        end
  end.

(** The failure of the first statement that has one. *)
Fixpoint first_fault (E : env) (selects : list string) : option exn :=
  match selects with
  | [] => None
  | stmt :: rest =>
      match statement_fault E stmt with
      | Some e => Some e
      | None => first_fault E rest
      end
  end.

(** A stage surfaces a failure: when its components meet failure [e] it
    raises [e] itself, having notified once with its context; when they
    meet none it returns and has notified nobody. *)
Definition surfaces {A} (contexto : string) (fault : option exn) (stage : M A)
    (w : world) : Prop :=
  match fault with
  | Some e => fst (stage w) = Raise e
              /\ notified (snd (stage w)) = (exn_text e, contexto) :: notified w
  | None => (exists a, fst (stage w) = Ret a)
            /\ notified (snd (stage w)) = notified w
  end.

(** The failure the extraction meets first, if any: one that stops it
    before its loop, or that of the first statement that fails. *)
Definition extrai_fault (E : env) : option exn :=
  match setup_fault E with
  | Some e => Some e
  | None =>
      match queries_file E with
      | Some lines => first_fault E (selects_of lines)
      | None => None
      end
  end.

(** The handler every stage ends with: notify, then [raise]. *)
Definition notify_and_reraise {A} (E : env) (contexto : string) (e : exn) : M A :=
  enviar_email_erro E (exn_text e) contexto ;;; raise e.

(** The sample run: the world before and after each of the first two
    statements, and what the second one raises. *)
Definition sample_start : world := sample_world (Some (Some "S")).
Definition sample_after_estoques : world :=
  snd (process_statement sample_E stmt_estoques None sample_start).
Definition sample_after_lote : world :=
  snd (process_statement sample_E stmt_lote (Some "dbo.estoque")
         sample_after_estoques).
Definition lote_not_found : exn :=
  {| exn_type := "ValueError";
     exn_text := "Colunas n" ++ Str.chr 227 ++ "o encontradas para dbo.lote" |}.

(** The column [df[col] = None] creates in a frame of [n] rows. *)
Definition none_series (n : nat) : series :=
  {| s_dtype := DObject; s_values := repeat PNone n |}.

(** An installation without faults, with the queries file and the answers
    of Oracle left open; the catalog is the one of the sample. *)
Definition answering_env (lines : list string)
    (answer : string -> outcome dataframe) : env :=
  {| parse_number := sample_parse_number;
     parse_datetime := fun _ _ => None;
     timestamp_value := fun _ => 0%Z;
     queries_file := Some lines;
     get_oracle_hook := None;
     get_mssql_hook := None;
     oracle_get_pandas_df := answer;
     mssql_get_records := fun schema name =>
       if String.eqb schema "dbo" && String.eqb name "estoque"
       then Ret estoque_catalog else Ret [];
     mssql_truncate_fault := fun _ => None;
     mssql_insert_fault := fun _ => None;
     mssql_programacao := Ret programacao_result;
     oracle_truncate_fault := None;
     oracle_insert_fault := None;
     flag_select_fault := None;
     flag_update_fault := None;
     flag_verify_fault := None;
     send_mail_fault := fun _ => None |}.

(** A character a derived table name can hold: not a parenthesis, a
    semicolon or white space, and unchanged by lower-casing. *)
Definition name_char (c : ascii) : bool :=
  negb (in_paren_semi_space c) && Ascii.eqb (Str.lower_char c) c.

(* ================================================================= *)
(** * Properties *)

(** ** Strings *)

Lemma lower_char_open_paren (c : ascii) :
  Str.lower_char c = "("%char -> c = "("%char.
Proof.
  destruct c as [[] [] [] [] [] [] [] []]; vm_compute; intro H;
    solve [ reflexivity | discriminate H ].
Qed.


Lemma str_app_assoc (a b c : string) : (a ++ b) ++ c = a ++ b ++ c.
Proof. induction a as [|x a IH]; simpl; [reflexivity|now rewrite IH]. Qed.

Lemma str_app_nil_r (a : string) : a ++ "" = a.
Proof. induction a as [|x a IH]; simpl; [reflexivity|now rewrite IH]. Qed.

Lemma str_length_app (a b : string) :
  String.length (a ++ b) = String.length a + String.length b.
Proof. induction a as [|x a IH]; simpl; [reflexivity|now rewrite IH]. Qed.


Lemma has_char_get (d : ascii) (s : string) (n : nat) :
  Str.has_char d s = false -> String.get n s <> Some d.
Proof.
  revert n. induction s as [|c s IH]; intros n H; simpl in *.
  - discriminate.
  - apply orb_false_iff in H. destruct H as [Hc Hs].
    destruct n as [|n].
    + intro Heq. injection Heq as ->. now rewrite Ascii.eqb_refl in Hc.
    + now apply IH.
Qed.

Lemma startswith_get (p s : string) :
  Str.startswith p s = true ->
  forall n c, String.get n p = Some c -> String.get n s = Some c.
Proof.
  revert s. induction p as [|a p IH]; intros s H n c Hg.
  - destruct n; discriminate.
  - destruct s as [|b s]; [discriminate|]. simpl in H.
    apply andb_true_iff in H. destruct H as [Hab Hp].
    apply Ascii.eqb_eq in Hab. subst b.
    destruct n as [|n]; simpl in *; [assumption|]. now apply IH.
Qed.

Lemma get_lower (n : nat) (s : string) :
  String.get n (Str.lower s) = option_map Str.lower_char (String.get n s).
Proof.
  revert n. induction s as [|c s IH]; intros [|n]; simpl; auto.
Qed.

Lemma lower_app (a b : string) :
  Str.lower (a ++ b) = Str.lower a ++ Str.lower b.
Proof. induction a as [|c a IH]; simpl; [reflexivity|now rewrite IH]. Qed.




(** ** The regular expressions of the name derivation *)








(** ** Name derivation *)

Example derive_estoques :
  derive_destino "SELECT * FROM TABLE(PKG_APS.FC_RETURN_RS_REL_ESTOQUES())"
  = Some "dbo.estoque".
Proof. reflexivity. Qed.

Example derive_lote :
  derive_destino "select * from table( sysdatacom.pkg.fc_return_rs_lote )"
  = Some "dbo.lote".
Proof. reflexivity. Qed.




(** ** Dictionaries *)

Lemma dict_get_set {V} (d : dict V) (k k' : string) (v : V) :
  dict_get (dict_set d k v) k' = if String.eqb k k' then Some v else dict_get d k'.
Proof.
  induction d as [|[k0 v0] d IH]; simpl.
  - reflexivity.
  - destruct (String.eqb k0 k) eqn:H0; simpl.
    + apply String.eqb_eq in H0. subst k0.
      now destruct (String.eqb k k').
    + destruct (String.eqb k0 k') eqn:H1; [|exact IH].
      apply String.eqb_eq in H1. subst k0. now rewrite String.eqb_sym, H0.
Qed.

Lemma dict_mem_keys {V} (d : dict V) (k : string) :
  dict_mem k d = mem k (dict_keys d).
Proof.
  unfold dict_mem, mem, dict_keys.
  induction d as [|[k0 v0] d IH]; simpl; [reflexivity|].
  rewrite (String.eqb_sym k k0). now destruct (String.eqb k0 k).
Qed.

Lemma mem_In (x : string) (l : list string) : mem x l = true <-> In x l.
Proof.
  unfold mem. rewrite existsb_exists. split.
  - intros (y & Hy & He). apply String.eqb_eq in He. now subst.
  - intro H. exists x. split; [assumption|apply String.eqb_refl].
Qed.

Lemma dict_keys_set {V} (d : dict V) (k : string) (v : V) :
  dict_keys (dict_set d k v)
  = if mem k (dict_keys d) then dict_keys d else (dict_keys d ++ [k])%list.
Proof.
  unfold dict_keys, mem. induction d as [|[k0 v0] d IH]; simpl; [reflexivity|].
  rewrite (String.eqb_sym k k0).
  destruct (String.eqb k0 k) eqn:He; simpl; [reflexivity|].
  rewrite IH. now destruct (existsb (String.eqb k) (map fst d)).
Qed.

(** The schema read from the catalog is a dictionary: no key repeats. *)
Lemma schema_of_rows_nodup (rows : list (string * string)) :
  NoDup (dict_keys (schema_of_rows rows)).
Proof.
  unfold schema_of_rows.
  assert (H : forall d : dict string, NoDup (dict_keys d) ->
            NoDup (dict_keys (fold_left
              (fun d r => dict_set d (Str.lower (fst r)) (Str.lower (snd r)))
              rows d))).
  { induction rows as [|r rows IH]; intros d Hd; simpl; [exact Hd|].
    apply IH. rewrite dict_keys_set.
    destruct (mem (Str.lower (fst r)) (dict_keys d)) eqn:Hm; [exact Hd|].
    apply NoDup_app; [exact Hd|repeat constructor; intros []|].
    intros x Hx [<-|[]]. apply mem_In in Hx. congruence. }
  apply H. constructor.
Qed.

(** ** Column matching *)

Lemma normalized_schema_get (keys : list string) (d0 : dict string) (n : string) :
  dict_get (fold_left (fun d k => dict_set d (normalized k) k) keys d0) n
  = match find (fun k => String.eqb (normalized k) n) (rev keys) with
    | Some k => Some k
    | None => dict_get d0 n
    end.
Proof.
  revert d0. induction keys as [|k keys IH]; intro d0; simpl; [reflexivity|].
  rewrite IH, dict_get_set.
  assert (Hfind : forall l,
    find (fun k0 => String.eqb (normalized k0) n) (l ++ [k])%list
    = match find (fun k0 => String.eqb (normalized k0) n) l with
      | Some x => Some x
      | None => if String.eqb (normalized k) n then Some k else None
      end).
  { induction l as [|a l IHl]; simpl; [reflexivity|].
    now destruct (String.eqb (normalized a) n). }
  rewrite Hfind.
  destruct (find _ (rev keys)); [reflexivity|].
  now destruct (String.eqb (normalized k) n).
Qed.

Lemma rename_step_entry (mapping schema_map rename_map : dict string)
    (df_col : string) :
  rename_step mapping schema_map (normalized_schema_of (dict_keys schema_map))
    rename_map df_col
  = match rename_entry mapping schema_map df_col with
    | Some new => dict_set rename_map df_col new
    | None => rename_map
    end.
Proof.
  unfold rename_step, rename_entry.
  destruct (dict_mem df_col schema_map); [reflexivity|].
  destruct (dict_get mapping df_col) as [target|]; [|reflexivity].
  now destruct (dict_mem target schema_map).
Qed.

Lemma rename_entry_resolve (mapping schema_map : dict string) (df_col : string) :
  new_label (rename_entry mapping schema_map df_col) df_col
  = new_label (resolve mapping schema_map df_col) df_col.
Proof.
  unfold rename_entry, resolve, last_normalized_match, normalized_schema_of.
  rewrite normalized_schema_get. rewrite !dict_mem_keys.
  destruct (mem df_col (dict_keys schema_map)); [reflexivity|].
  destruct (dict_get mapping df_col) as [target|].
  - rewrite dict_mem_keys.
    destruct (mem target (dict_keys schema_map)); [reflexivity|].
    now destruct (find _ _).
  - now destruct (find _ _).
Qed.

Lemma fold_left_ext' {A B} (f g : A -> B -> A) (l : list B) (a : A) :
  (forall x y, f x y = g x y) -> fold_left f l a = fold_left g l a.
Proof.
  intro H. revert a. induction l as [|b l IH]; intro a; simpl; [reflexivity|].
  now rewrite H, IH.
Qed.

Lemma rename_map_get (entry : string -> option string) (cols : list string)
    (rm0 : dict string) (c : string) :
  dict_get (fold_left (fun rm a => match entry a with
                                   | Some new => dict_set rm a new
                                   | None => rm
                                   end) cols rm0) c
  = if mem c cols
    then match entry c with
         | Some new => Some new
         | None => dict_get rm0 c
         end
    else dict_get rm0 c.
Proof.
  revert rm0. induction cols as [|a cols IH]; intro rm0; [reflexivity|].
  cbn [fold_left]. rewrite IH. unfold mem. cbn [existsb]. fold (mem c cols).
  destruct (String.eqb c a) eqn:Hca.
  - apply String.eqb_eq in Hca. subst a. cbn [orb].
    destruct (entry c) as [new|].
    + rewrite dict_get_set, String.eqb_refl. now destruct (mem c cols).
    + now destruct (mem c cols).
  - cbn [orb]. destruct (entry a) as [new|]; [|reflexivity].
    rewrite dict_get_set, String.eqb_sym, Hca. reflexivity.
Qed.

Lemma columns_rename (rename_map : dict string) (df : dataframe) :
  columns (df_rename rename_map df)
  = map (fun c => new_label (dict_get rename_map c) c) (columns df).
Proof. unfold columns, df_rename, new_label. simpl. now rewrite !map_map. Qed.

(** C9, as the code has it.  The labels [normalize_column_names] leaves are
    those of the fixed priority: a name the schema has is kept; else the
    alias is taken when the schema has it; else the schema name with the
    same lower-cased, underscore-free form, and where several schema names
    share that form the one that comes last in schema order; else the
    column keeps its name. *)
Theorem normalize_column_names_priority
    (mapping : dict string) (df : dataframe) (schema_map : dict string) :
  columns (normalize_column_names_with mapping df schema_map)
  = map (fun df_col => new_label (resolve mapping schema_map df_col) df_col)
        (columns df).
Proof.
  unfold normalize_column_names_with.
  assert (Hlab : columns (df_rename
                   (rename_map_of mapping schema_map (columns df)) df)
                 = map (fun c => new_label (resolve mapping schema_map c) c)
                       (columns df)).
  { rewrite columns_rename. apply map_ext_in. intros c Hc.
    rewrite <- rename_entry_resolve. f_equal.
    unfold rename_map_of.
    rewrite (fold_left_ext' _ (fun rm a =>
               match rename_entry mapping schema_map a with
               | Some new => dict_set rm a new
               | None => rm
               end)) by (intros rm a; apply rename_step_entry).
    rewrite rename_map_get.
    apply mem_In in Hc. rewrite Hc.
    now destruct (rename_entry mapping schema_map c). }
  destruct (rename_map_of mapping schema_map (columns df)) eqn:Hrm;
    [|exact Hlab].
  rewrite <- Hlab, columns_rename. unfold new_label. simpl.
  now rewrite map_id.
Qed.

(** C9, counterexample.  Two schema names share the normalized form of the
    incoming [OrderQty]; the column is renamed all the same, and to a
    different name when the two schema columns change places. *)
Lemma normalized_collision_follows_schema_order :
  let df := {| df_rows := 1;
               df_cols := [("OrderQty",
                            {| s_dtype := DInt64; s_values := [PInt 7] |})] |} in
  normalized_matches "OrderQty" ["order_qty"; "orderqty"]
    = ["order_qty"; "orderqty"]
  /\ columns (normalize_column_names df [("order_qty", "int"); ("orderqty", "int")])
     = ["orderqty"]
  /\ columns (normalize_column_names df [("orderqty", "int"); ("order_qty", "int")])
     = ["order_qty"].
Proof. repeat split. Qed.

(** Exact match before alias, alias before normalized match. *)
Example priority_exact_alias_normalized :
  let df := {| df_rows := 0;
               df_cols := map (fun l => (l, {| s_dtype := DObject; s_values := [] |}))
                              ["qty"; "qtd"; "lot_e"; "other"] |} in
  columns (normalize_column_names_with [("qty", "lote"); ("qtd", "lote")] df
             [("qty", "int"); ("lote", "int")])
  = ["qty"; "lote"; "lote"; "other"].
Proof. reflexivity. Qed.

(** ** Reconciliation *)

Lemma columns_update_cols (f : series -> series) (col : string) (df : dataframe) :
  columns (update_cols f col df) = columns df.
Proof.
  unfold columns, update_cols. simpl. rewrite map_map.
  apply map_ext. intros [l s]. simpl. now destruct (String.eqb l col).
Qed.

Lemma columns_update_series (e : exn) (f : series -> outcome series)
    (col : string) (df df' : dataframe) :
  update_series e f col df = Ret df' -> columns df' = columns df.
Proof.
  unfold update_series.
  destruct (labelled col df) as [|s [|s2 l]]; try discriminate.
  destruct (f s) as [s'|]; simpl; [|discriminate].
  intro H. injection H as <-. apply columns_update_cols.
Qed.

Lemma columns_cast_column (E : env) (df df' : dataframe) (item : string * string) :
  cast_column E df item = Ret df' -> columns df' = columns df.
Proof.
  destruct item as [col sql_type]. unfold cast_column.
  destruct (negb (mem col (columns df))); [intro H; now injection H as <-|].
  repeat match goal with
  | |- context [if ?b then _ else _] => destruct b
  end;
  first [ apply columns_update_series
        | intro H; injection H as <-; apply columns_update_cols ].
Qed.

Lemma columns_normalize_nulls (df df' : dataframe) (col : string) :
  normalize_nulls df col = Ret df' -> columns df' = columns df.
Proof.
  unfold normalize_nulls.
  destruct (labelled col df) as [|s [|s2 l]]; try discriminate.
  destruct (_ || _); intro H; injection H as <-;
    [apply columns_update_cols|reflexivity].
Qed.

Lemma foldM_invariant {A B} (f : A -> B -> outcome A) (P : A -> Prop)
    (l : list B) (a a' : A) :
  (forall x y x', f x y = Ret x' -> P x -> P x') ->
  foldM f l a = Ret a' -> P a -> P a'.
Proof.
  intro Hf. revert a. induction l as [|b l IH]; intros a H Ha; simpl in H.
  - now injection H as <-.
  - destruct (f a b) as [a1|] eqn:Hab; simpl in H; [|discriminate].
    eapply IH; eauto.
Qed.

(** How often a label occurs. *)
Lemma labelled_length (col : string) (df : dataframe) :
  List.length (labelled col df)
  = List.length (List.filter (fun l => String.eqb l col) (columns df)).
Proof.
  unfold labelled, columns. rewrite length_map.
  induction (df_cols df) as [|[l s] cs IH]; simpl; [reflexivity|].
  destruct (String.eqb l col); simpl; now rewrite IH.
Qed.

Lemma nodup_of_counts (l : list string) :
  (forall x, In x l ->
     List.length (List.filter (fun y => String.eqb y x) l) = 1%nat) ->
  NoDup l.
Proof.
  induction l as [|a l IH]; intro H; constructor.
  - intro Ha. specialize (H a (or_introl eq_refl)). simpl in H.
    rewrite String.eqb_refl in H. simpl in H.
    assert (In a (List.filter (fun y => String.eqb y a) l)).
    { apply filter_In. split; [assumption|apply String.eqb_refl]. }
    destruct (List.filter (fun y => String.eqb y a) l); [contradiction|discriminate].
  - apply IH. intros x Hx. pose proof (H x (or_intror Hx)) as Hc. simpl in Hc.
    destruct (String.eqb a x) eqn:Hax; [|exact Hc]. exfalso.
    simpl in Hc.
    assert (In x (List.filter (fun y => String.eqb y x) l)).
    { apply filter_In. split; [assumption|apply String.eqb_refl]. }
    destruct (List.filter (fun y => String.eqb y x) l); [contradiction|discriminate].
Qed.

(** The second loop of the cast gets through only when no label repeats. *)
Lemma normalize_nulls_loop_counts (ls : list string) (df df' : dataframe) :
  foldM normalize_nulls ls df = Ret df' ->
  forall col, In col ls -> List.length (labelled col df) = 1%nat.
Proof.
  revert df. induction ls as [|l ls IH]; intros df H col Hin; [contradiction|].
  simpl in H. destruct (normalize_nulls df l) as [df1|] eqn:H1; simpl in H;
    [|discriminate].
  destruct Hin as [->|Hin].
  - unfold normalize_nulls in H1.
    destruct (labelled col df) as [|s [|s2 r]]; now try discriminate.
  - rewrite labelled_length, <- (columns_normalize_nulls _ _ _ H1),
      <- labelled_length. now apply (IH df1).
Qed.

Lemma cast_df_to_schema_columns (E : env) (df df' : dataframe)
    (schema_map : dict string) :
  cast_df_to_schema E df schema_map = Ret df' ->
  columns df' = columns df /\ NoDup (columns df).
Proof.
  unfold cast_df_to_schema.
  destruct (foldM (cast_column E) schema_map df) as [df1|] eqn:H1; simpl;
    [|discriminate].
  intro H2.
  assert (Hc1 : columns df1 = columns df).
  { apply (foldM_invariant (cast_column E)
             (fun d => columns d = columns df) schema_map df df1); auto.
    intros x y x' Hxy Hx. rewrite <- Hx. now apply (columns_cast_column E x x' y). }
  split.
  - rewrite <- Hc1.
    apply (foldM_invariant normalize_nulls
             (fun d => columns d = columns df1) (columns df1) df1 df'); auto.
    intros x y x' Hxy Hx. rewrite <- Hx. now apply (columns_normalize_nulls x x' y).
  - rewrite <- Hc1. apply nodup_of_counts. intros x Hx.
    rewrite <- labelled_length. now apply (normalize_nulls_loop_counts _ _ _ H2).
Qed.

Lemma columns_set_none (col : string) (df : dataframe) :
  columns (set_none col df)
  = if mem col (columns df) then columns df else (columns df ++ [col])%list.
Proof.
  unfold set_none. destruct (mem col (columns df)).
  - apply columns_update_cols.
  - unfold columns. simpl. now rewrite map_app.
Qed.

Lemma In_columns_set_none (col x : string) (df : dataframe) :
  In x (columns (set_none col df)) <-> In x (columns df) \/ x = col.
Proof.
  rewrite columns_set_none. destruct (mem col (columns df)) eqn:Hm.
  - apply mem_In in Hm. split; [tauto|]. intros [H| ->]; assumption.
  - rewrite in_app_iff. simpl. intuition auto.
Qed.

Lemma In_columns_backfill (missing : list string) (df : dataframe) (x : string) :
  In x (columns (fold_left (fun d col => set_none col d) missing df))
  <-> In x (columns df) \/ In x missing.
Proof.
  revert df. induction missing as [|m ms IH]; intro df; simpl.
  - tauto.
  - rewrite IH, In_columns_set_none. split; intros H; intuition auto.
Qed.

(** After reconciliation every schema column is there and nothing else. *)
Lemma reconcile_columns (df : dataframe) (schema : dict string) (x : string) :
  In x (columns (reconcile df schema)) <-> In x (dict_keys schema).
Proof.
  unfold reconcile.
  set (df1 := normalize_column_names df schema).
  set (missing := List.filter (fun col => negb (mem col (columns df1)))
                              (dict_keys schema)).
  set (df2 := fold_left (fun d col => set_none col d) missing df1).
  set (extra := List.filter (fun col => negb (mem col (dict_keys schema)))
                            (columns df2)).
  assert (Hkeys : In x (dict_keys schema) -> In x (columns df2)).
  { intro Hx. apply In_columns_backfill.
    destruct (mem x (columns df1)) eqn:Hm.
    - left. now apply mem_In.
    - right. apply filter_In. split; [assumption|]. now rewrite Hm. }
  assert (Hdrop : In x (columns (df_drop extra df2)) <-> In x (dict_keys schema)).
  { unfold df_drop, columns. simpl. split.
    - intro H. apply in_map_iff in H. destruct H as ([l s] & <- & H).
      apply filter_In in H. destruct H as [Hin Hneg]. simpl in *.
      destruct (mem l (dict_keys schema)) eqn:Hm; [now apply mem_In|].
      exfalso. apply negb_true_iff in Hneg.
      assert (In l extra).
      { apply filter_In. split; [|now rewrite Hm].
        apply in_map_iff. now exists (l, s). }
      apply mem_In in H. congruence.
    - intro Hx. pose proof (Hkeys Hx) as H2. unfold columns in H2.
      apply in_map_iff in H2. destruct H2 as ([l s] & Hl & Hin). simpl in Hl. subst l.
      apply in_map_iff. exists (x, s). split; [reflexivity|].
      apply filter_In. split; [assumption|]. simpl.
      apply negb_true_iff. destruct (mem x extra) eqn:Hm; [|reflexivity].
      apply mem_In in Hm. apply filter_In in Hm. destruct Hm as [_ Hm].
      apply mem_In in Hx. rewrite Hx in Hm. discriminate. }
  destruct extra eqn:He; [|exact Hdrop].
  split; [|exact Hkeys]. intro Hx.
  destruct (mem x (dict_keys schema)) eqn:Hm; [now apply mem_In|].
  assert (In x extra) by (apply filter_In; split; [assumption|now rewrite Hm]).
  rewrite He in H. contradiction.
Qed.

Lemma filter_label_nodup (l : string) (cs : list (string * series)) :
  NoDup (map fst cs) -> In l (map fst cs) ->
  map fst (List.filter (fun c => String.eqb (fst c) l) cs) = [l].
Proof.
  induction cs as [|[a s] cs IH]; intros Hnd Hin; [contradiction|].
  simpl in *. inversion Hnd as [|? ? Hna Hnd']; subst.
  destruct (String.eqb a l) eqn:Hal.
  - apply String.eqb_eq in Hal. subst a. simpl. f_equal.
    assert (Hnone : forall cs', ~ In l (map fst cs') ->
              List.filter (fun c : string * series => String.eqb (fst c) l) cs' = []).
    { induction cs' as [|[b t] cs' IH']; intro Hn; [reflexivity|]. simpl in *.
      destruct (String.eqb b l) eqn:Hbl.
      - apply String.eqb_eq in Hbl. subst. tauto.
      - apply IH'. tauto. }
    now rewrite Hnone.
  - destruct Hin as [->|Hin]; [now rewrite String.eqb_refl in Hal|]. now apply IH.
Qed.

Lemma df_select_columns (labels : list string) (df df' : dataframe) :
  NoDup (columns df) ->
  df_select labels df = Ret df' -> columns df' = labels.
Proof.
  unfold df_select. intros Hnd.
  destruct (forallb _ labels) eqn:Hall; [|discriminate].
  intro H. injection H as <-. unfold columns. simpl.
  rewrite forallb_forall in Hall.
  induction labels as [|l ls IH]; [reflexivity|].
  simpl. rewrite map_app. rewrite filter_label_nodup.
  - simpl. f_equal. apply IH. intros x Hx. apply Hall. now right.
  - exact Hnd.
  - apply mem_In. apply Hall. now left.
Qed.

(** C1, on the function that builds the table for the writer: whatever the
    result table and the schema, the table that comes out of renaming,
    backfilling, dropping, casting and ordering has the schema's columns, in
    the schema's order. *)
Lemma prepare_table_columns (E : env) (df df' : dataframe) (schema : dict string) :
  prepare_table E df schema = Ret df' -> columns df' = dict_keys schema.
Proof.
  unfold prepare_table.
  destruct (cast_df_to_schema E (reconcile df schema) schema) as [df1|] eqn:Hc;
    simpl; [|discriminate].
  apply cast_df_to_schema_columns in Hc. destruct Hc as [Hcols Hnd].
  apply df_select_columns. now rewrite Hcols.
Qed.

(** ** The writer is handed the schema's columns *)

Lemma load_table_trace (E : env) (destino : string) (df : dataframe) (w : world) :
  forall ev, In ev (trace (snd (load_table E destino df w))) ->
             In ev (trace w) \/ writer_in_order E ev.
Proof.
  intros ev. unfold load_table, bind, lift, safe_insert_rows, bind.
  destruct (get_sqlserver_schema E destino) as [schema|] eqn:Hs; [|now left].
  destruct (prepare_table E df schema) as [df'|] eqn:Hp; [|now left].
  destruct (mssql_truncate_fault E destino); [now left|]. simpl.
  destruct (insert_into _ _ _) as [rows fault]. simpl.
  assert (Hgood : writer_in_order E (EvSafeInsert destino df' (dict_keys schema))).
  { exists schema. repeat split; [assumption|].
    now apply (prepare_table_columns E df df' schema). }
  destruct fault; simpl; intros [<-|H]; auto.
Qed.

Lemma enviar_email_erro_trace (E : env) (erro_msg contexto : string) (w : world) :
  forall ev, In ev (trace (snd (enviar_email_erro E erro_msg contexto w))) ->
             In ev (trace w) \/ writer_in_order E ev.
Proof.
  intros ev. unfold enviar_email_erro, bind, try_except, check.
  simpl. destruct (get_oracle_hook E); simpl.
  - intros [<-|H]; simpl; auto.
  - destruct (send_mail_fault E _); simpl.
    + intros [<-|H]; simpl; auto.
    + intros [<-|[<-|H]]; simpl; auto.
Qed.

Lemma process_statement_trace (E : env) (stmt : string) (d : option string)
    (w : world) :
  forall ev, In ev (trace (snd (process_statement E stmt d w))) ->
             In ev (trace w) \/ writer_in_order E ev.
Proof.
  intros ev. unfold process_statement.
  set (w0 := snd (log (EvOracleQuery stmt) w)).
  assert (H0 : In ev (trace w0) -> In ev (trace w) \/ writer_in_order E ev).
  { simpl. intros [<-|H]; simpl; auto. }
  destruct (oracle_get_pandas_df E stmt) as [df|]; [|exact H0].
  destruct (df_empty (lower_columns df)); [exact H0|].
  destruct (derive_destino stmt) as [dest|]; [|exact H0].
  pose proof (load_table_trace E dest (lower_columns df) w0 ev) as Ht.
  destruct (load_table E dest (lower_columns df) w0) as [r w'].
  simpl in Ht |- *. intro H. destruct (Ht H) as [H1|H1]; auto.
Qed.

Lemma for_selects_trace (E : env) (selects : list string) (d : option string)
    (w : world) :
  forall ev, In ev (trace (snd (for_selects E selects d w))) ->
             In ev (trace w) \/ writer_in_order E ev.
Proof.
  revert d w. induction selects as [|stmt rest IH]; intros d w ev; simpl.
  - now left.
  - pose proof (process_statement_trace E stmt d w) as Hp.
    destruct (process_statement E stmt d w) as [[r d'] w']. simpl in Hp.
    destruct r as [u|e].
    + intro H. destruct (IH d' w' ev H) as [H1|H1]; auto.
    + unfold bind.
      pose proof (enviar_email_erro_trace E (exn_text e) (ctx_tabela d') w') as He.
      destruct (enviar_email_erro E (exn_text e) (ctx_tabela d') w') as [r2 w2].
      simpl in He. destruct r2; simpl; intro H;
        destruct (He ev H) as [H1|H1]; auto.
Qed.

(** C1.  Every call of the replace-load writer made by a run of the
    extraction hands it a table whose columns are exactly those of the
    destination schema read for that table, in the schema's order. *)
Theorem writer_gets_schema_columns (E : env) (w : world) (ev : event) :
  In ev (trace (snd (extrai_envia_sqlserver E w))) ->
  In ev (trace w) \/ writer_in_order E ev.
Proof.
  unfold extrai_envia_sqlserver, extrai_envia_sqlserver_body, try_except.
  set (body := match queries_file E with
               | Some lines => _
               | None => _
               end).
  assert (Hbody : forall ev, In ev (trace (snd (body w))) ->
                             In ev (trace w) \/ writer_in_order E ev).
  { subst body. intros ev0. destruct (queries_file E) as [lines|]; [|now left].
    unfold bind, check.
    destruct (get_oracle_hook E); [now left|]. simpl.
    destruct (get_mssql_hook E); [now left|]. simpl.
    apply for_selects_trace. }
  destruct (body w) as [r w1]. simpl in Hbody.
  destruct r as [u|e]; simpl.
  - apply Hbody.
  - unfold bind.
    pose proof (enviar_email_erro_trace E (exn_text e) ctx_extracao w1) as He.
    destruct (enviar_email_erro E (exn_text e) ctx_extracao w1) as [r2 w2].
    simpl in He. destruct r2; simpl; intro H;
      destruct (He ev H) as [H1|H1]; auto; destruct (Hbody ev H1); auto.
Qed.

(** ** Type coercion *)

Lemma Forall2_map_r {A B} (R : A -> B -> Prop) (g : A -> B) (l : list A) :
  (forall x, In x l -> R x (g x)) -> Forall2 R l (map g l).
Proof.
  induction l as [|a l IH]; intro H; simpl; constructor.
  - apply H. now left.
  - apply IH. intros x Hx. apply H. now right.
Qed.

Lemma Forall2_trans {A B C} (R1 : A -> B -> Prop) (R2 : B -> C -> Prop)
    (R3 : A -> C -> Prop) (l1 : list A) (l2 : list B) (l3 : list C) :
  (forall a b c, R1 a b -> R2 b c -> R3 a c) ->
  Forall2 R1 l1 l2 -> Forall2 R2 l2 l3 -> Forall2 R3 l1 l3.
Proof.
  intros H H1. revert l3. induction H1; intros l3 H2; inversion H2; subst;
    constructor; eauto.
Qed.

Lemma Forall2_In_r {A B} (R : A -> B -> Prop) (l : list A) (l' : list B) (y : B) :
  Forall2 R l l' -> In y l' -> exists x, In x l /\ R x y.
Proof.
  induction 1; intros Hin; [contradiction|].
  destruct Hin as [<-|Hin].
  - eexists. split; [now left|eassumption].
  - destruct (IHForall2 Hin) as (x0 & Hx & Hr).
    exists x0. split; [now right|assumption].
Qed.

Lemma Forall2_refl_on {A} (R : A -> A -> Prop) (l : list A) :
  (forall x, In x l -> R x x) -> Forall2 R l l.
Proof.
  intro H. rewrite <- (map_id l) at 2. now apply Forall2_map_r.
Qed.

Lemma labelled_In (col : string) (df : dataframe) (s : series) :
  In s (labelled col df) <-> In (col, s) (df_cols df).
Proof.
  unfold labelled. rewrite in_map_iff. split.
  - intros ([l s0] & <- & H). apply filter_In in H. destruct H as [H He].
    simpl in He. apply String.eqb_eq in He. now subst.
  - intro H. exists (col, s). split; [reflexivity|].
    apply filter_In. split; [assumption|apply String.eqb_refl].
Qed.

Lemma update_cols_rel (R : string * series -> string * series -> Prop)
    (f : series -> series) (col : string) (df : dataframe) :
  (forall c, In c (df_cols df) ->
     R c (if String.eqb (fst c) col then (fst c, f (snd c)) else c)) ->
  Forall2 R (df_cols df) (df_cols (update_cols f col df)).
Proof. intro H. unfold update_cols. simpl. now apply Forall2_map_r. Qed.

Lemma update_series_rel (E : env) (e : exn) (f : series -> outcome series)
    (col : string) (tag : type_tag) (df df' : dataframe) :
  (forall s, f s = cast_series E tag s) ->
  update_series e f col df = Ret df' ->
  Forall2 (step_rel E col tag) (df_cols df) (df_cols df').
Proof.
  intros Hf. unfold update_series.
  destruct (labelled col df) as [|s [|s2 l]] eqn:Hl; try discriminate.
  destruct (f s) as [s'|] eqn:Hs; simpl; [|discriminate].
  intro H. injection H as <-. apply update_cols_rel.
  intros [l0 s0] Hin. unfold step_rel. cbn [fst snd].
  destruct (String.eqb l0 col) eqn:He; cbn [fst snd]; [|easy].
  split; [reflexivity|].
  apply String.eqb_eq in He. subst l0.
  apply labelled_In in Hin. rewrite Hl in Hin. destruct Hin as [<-|[]].
  now rewrite <- Hf.
Qed.

Lemma cast_column_rel (E : env) (df df' : dataframe) (col sql_type : string) :
  cast_column E df (col, sql_type) = Ret df' ->
  Forall2 (step_rel E col (tag_of sql_type)) (df_cols df) (df_cols df').
Proof.
  unfold cast_column.
  destruct (negb (mem col (columns df))) eqn:Hm.
  - intro H. injection H as <-. apply Forall2_refl_on.
    intros [l s] Hin. unfold step_rel. simpl. split; [reflexivity|].
    destruct (String.eqb l col) eqn:He; [|reflexivity]. exfalso.
    apply String.eqb_eq in He. subst l.
    apply negb_true_iff in Hm.
    assert (In col (columns df)) by (apply in_map_iff; now exists (col, s)).
    apply mem_In in H. congruence.
  - unfold tag_of.
    repeat match goal with
    | |- context [if ?b then _ else _] => destruct b
    end;
    first [ apply update_series_rel; intro; reflexivity
          | intro H; injection H as <-; apply update_cols_rel;
            intros [l s] Hin; unfold step_rel; cbn [fst snd];
            destruct (String.eqb l col) eqn:He; cbn [fst snd]; auto ].
Qed.

Lemma dict_get_none {V} (d : dict V) (k : string) :
  ~ In k (dict_keys d) -> dict_get d k = None.
Proof.
  induction d as [|[k0 v0] d IH]; simpl; intro H; [reflexivity|].
  destruct (String.eqb k0 k) eqn:He.
  - apply String.eqb_eq in He. subst. tauto.
  - apply IH. tauto.
Qed.

Lemma first_loop_rel (E : env) (schema_map : dict string) (df df' : dataframe) :
  NoDup (dict_keys schema_map) ->
  foldM (cast_column E) schema_map df = Ret df' ->
  Forall2 (first_rel E schema_map) (df_cols df) (df_cols df').
Proof.
  revert df. induction schema_map as [|[col sql_type] sch IH]; intros df Hnd H.
  - simpl in H. injection H as <-. apply Forall2_refl_on.
    intros c _. now split.
  - cbn [foldM] in H. simpl in Hnd. inversion Hnd as [|? ? Hnotin Hnd']; subst.
    destruct (cast_column E df (col, sql_type)) as [dfa|] eqn:Ha;
      cbn [obind] in H; [|discriminate].
    apply cast_column_rel in Ha. specialize (IH dfa Hnd' H).
    eapply Forall2_trans; [|exact Ha|exact IH].
    intros a b c [Hl1 H1] [Hl2 H2]. unfold first_rel. simpl.
    split; [congruence|]. rewrite Hl1 in H2.
    destruct (String.eqb (fst a) col) eqn:He.
    + apply String.eqb_eq in He. rewrite He in *.
      rewrite String.eqb_refl. rewrite (dict_get_none sch col Hnotin) in H2.
      congruence.
    + rewrite String.eqb_sym, He. rewrite H1 in H2. exact H2.
Qed.

Lemma normalize_nulls_rel (df df' : dataframe) (col : string) :
  normalize_nulls df col = Ret df' ->
  Forall2 (second_rel [col]) (df_cols df) (df_cols df').
Proof.
  unfold normalize_nulls.
  destruct (labelled col df) as [|s [|s2 l]] eqn:Hl; try discriminate.
  assert (Hone : forall l0 s0, In (l0, s0) (df_cols df) ->
                   String.eqb l0 col = true -> s0 = s).
  { intros l0 s0 Hin He. apply String.eqb_eq in He. subst l0.
    apply labelled_In in Hin. rewrite Hl in Hin. now destruct Hin as [<-|[]]. }
  destruct (_ || _) eqn:Hd; intro H; injection H as <-.
  - apply update_cols_rel. intros [l0 s0] Hin. unfold second_rel, mem.
    cbn [fst snd existsb]. rewrite orb_false_r.
    destruct (String.eqb l0 col) eqn:He; cbn [fst snd]; [|easy].
    split; [reflexivity|]. unfold null_pass.
    rewrite (Hone l0 s0 Hin He). now rewrite Hd.
  - apply Forall2_refl_on. intros [l0 s0] Hin. unfold second_rel, mem.
    cbn [fst snd existsb]. rewrite orb_false_r. split; [reflexivity|].
    destruct (String.eqb l0 col) eqn:He; [|reflexivity].
    unfold null_pass. rewrite (Hone l0 s0 Hin He). now rewrite Hd.
Qed.

Lemma second_loop_rel (ls : list string) (df df' : dataframe) :
  NoDup ls ->
  foldM normalize_nulls ls df = Ret df' ->
  Forall2 (second_rel ls) (df_cols df) (df_cols df').
Proof.
  revert df. induction ls as [|l ls IH]; intros df Hnd H.
  - simpl in H. injection H as <-. apply Forall2_refl_on. intros c _. now split.
  - simpl in H. inversion Hnd as [|? ? Hnotin Hnd']; subst.
    destruct (normalize_nulls df l) as [dfa|] eqn:Ha; simpl in H; [|discriminate].
    apply normalize_nulls_rel in Ha. specialize (IH dfa Hnd' H).
    eapply Forall2_trans; [|exact Ha|exact IH].
    intros a b c [Hl1 H1] [Hl2 H2]. unfold second_rel.
    split; [congruence|]. rewrite Hl1 in H2. rewrite H2, H1.
    unfold mem. cbn [existsb]. fold (mem (fst a) ls).
    destruct (String.eqb (fst a) l) eqn:He; cbn [orb]; [|reflexivity].
    apply String.eqb_eq in He. rewrite He.
    destruct (mem l ls) eqn:Hm; [|reflexivity].
    apply mem_In in Hm. contradiction.
Qed.

(** What [cast_df_to_schema] makes of each column: the cast of its declared
    type, if the schema declares one, then the null pass. *)
Lemma cast_df_to_schema_series (E : env) (df df' : dataframe)
    (schema_map : dict string) :
  NoDup (dict_keys schema_map) ->
  cast_df_to_schema E df schema_map = Ret df' ->
  forall col s', In (col, s') (df_cols df') ->
  exists s s1,
    In (col, s) (df_cols df)
    /\ match dict_get schema_map col with
       | Some sql_type => cast_series E (tag_of sql_type) s = Ret s1
       | None => s1 = s
       end
    /\ s' = null_pass s1.
Proof.
  intros Hnd H col s' Hin.
  pose proof (cast_df_to_schema_columns E df df' schema_map H) as [_ Hndc].
  unfold cast_df_to_schema in H.
  destruct (foldM (cast_column E) schema_map df) as [df1|] eqn:H1; simpl in H;
    [|discriminate].
  assert (Hc1 : columns df1 = columns df).
  { apply (foldM_invariant (cast_column E)
             (fun d => columns d = columns df) schema_map df df1); auto.
    intros x y x' Hxy Hx. rewrite <- Hx. now apply (columns_cast_column E x x' y). }
  apply first_loop_rel in H1; [|assumption].
  apply second_loop_rel in H; [|now rewrite Hc1].
  destruct (Forall2_In_r _ _ _ _ H Hin) as ([l1 s1] & Hin1 & Hl1 & Hs1).
  destruct (Forall2_In_r _ _ _ _ H1 Hin1) as ([l0 s0] & Hin0 & Hl0 & Hs0).
  simpl in *. subst l1 l0.
  exists s0, s1. repeat split; [assumption|assumption|].
  rewrite Hs1.
  assert (Hm : mem col (columns df1) = true).
  { apply mem_In. apply in_map_iff. now exists (col, s1). }
  now rewrite Hm.
Qed.

Lemma unique_column (df : dataframe) (col : string) (s s0 : series) :
  NoDup (columns df) ->
  In (col, s) (df_cols df) -> In (col, s0) (df_cols df) -> s = s0.
Proof.
  unfold columns. induction (df_cols df) as [|[l t] cs IH]; intros Hnd H1 H2;
    [contradiction|].
  simpl in Hnd. inversion Hnd as [|? ? Hnotin Hnd']; subst.
  assert (Hfst : forall x, In (col, x) cs -> In col (map fst cs)).
  { intros x Hx. apply in_map_iff. now exists (col, x). }
  destruct H1 as [H1|H1], H2 as [H2|H2].
  - congruence.
  - injection H1 as -> _. exfalso. eauto.
  - injection H2 as -> _. exfalso. eauto.
  - now apply IH.
Qed.


Lemma mapM_nth {A B} (f : A -> outcome B) (l : list A) (l' : list B) :
  mapM f l = Ret l' ->
  forall i a, nth_error l i = Some a ->
  exists b, f a = Ret b /\ nth_error l' i = Some b.
Proof.
  revert l'. induction l as [|x l IH]; intros l' H i a Hi.
  - destruct i; discriminate.
  - simpl in H. destruct (f x) as [b|] eqn:Hx; simpl in H; [|discriminate].
    destruct (mapM f l) as [bs|]; simpl in H; [|discriminate].
    injection H as <-. destruct i as [|i]; simpl in *.
    + injection Hi as <-. eauto.
    + now apply (IH bs eq_refl i a).
Qed.

Lemma mapM_In {A B} (f : A -> outcome B) (l : list A) (l' : list B) :
  mapM f l = Ret l' ->
  forall b, In b l' -> exists a, In a l /\ f a = Ret b.
Proof.
  revert l'. induction l as [|x l IH]; intros l' H b Hb; simpl in H.
  - injection H as <-. contradiction.
  - destruct (f x) as [b0|] eqn:Hx; simpl in H; [|discriminate].
    destruct (mapM f l) as [bs|]; simpl in H; [|discriminate].
    injection H as <-. destruct Hb as [<-|Hb].
    + exists x. split; [now left|assumption].
    + destruct (IH bs eq_refl b Hb) as (a & Ha & Hf). exists a. split; [now right|assumption].
Qed.

(** A map that succeeds on every entry succeeds on the list. *)
Lemma mapM_Forall2 {A B} (f : A -> outcome B) (R : A -> B -> Prop) (l : list A) :
  (forall a, In a l -> exists b, f a = Ret b /\ R a b) ->
  exists l', mapM f l = Ret l' /\ Forall2 R l l'.
Proof.
  induction l as [|x l IH]; intro H.
  - exists []. split; [reflexivity|constructor].
  - destruct (H x (or_introl eq_refl)) as (b & Hb & Hr).
    destruct IH as (l' & Hl & Hf); [intros a Ha; apply H; now right|].
    exists (b :: l'). split; [|now constructor].
    simpl. now rewrite Hb, Hl.
Qed.

Lemma Forall2_map_both {A B C} (R : B -> C -> Prop) (g : A -> B) (h : A -> C)
    (l : list A) :
  (forall x, In x l -> R (g x) (h x)) -> Forall2 R (map g l) (map h l).
Proof.
  induction l as [|a l IH]; intro H; simpl; constructor.
  - apply H. now left.
  - apply IH. intros x Hx. apply H. now right.
Qed.


Lemma in_int64_wrap (z : Z) : in_int64 (wrap_int64 z) = true.
Proof.
  unfold in_int64, wrap_int64, int64_min, int64_max.
  pose proof (Z.mod_pos_bound (z + 2 ^ 63) (2 ^ 64) ltac:(reflexivity)) as H.
  change (2 ^ 64)%Z with 18446744073709551616%Z in *.
  change (2 ^ 63)%Z with 9223372036854775808%Z in *.
  apply andb_true_iff. split; apply Z.leb_le; lia.
Qed.

Lemma astype_int64_value_int (E : env) (d : dtype) (x v : pyval) :
  astype_int64_value E d x = Ret v -> exists z, v = PInt z /\ in_int64 z = true.
Proof.
  unfold astype_int64_value. destruct x; try discriminate.
  - intro H. injection H as <-. exists (if b then 1 else 0)%Z. now destruct b.
  - destruct (in_int64 z) eqn:Hz.
    + intro H. injection H as <-. eauto.
    + destruct d; try discriminate. intro H. injection H as <-.
      eexists. split; [reflexivity|apply in_int64_wrap].
  - destruct (trunc_float f) as [z|]; [|destruct d; discriminate].
    destruct d; try (destruct (in_int64 z) eqn:Hz; [|discriminate];
                     intro H; injection H as <-; eauto).
    intro H. injection H as <-. destruct (in_int64 z) eqn:Hz; eauto.
  - destruct (parse_number E (PStr s)) as [[z|f]|]; try discriminate.
    destruct (in_int64 z) eqn:Hz; [|discriminate].
    intro H. injection H as <-. eauto.
Qed.

(** *** Datetime, date and time columns *)





(** *** Numeric columns *)






Lemma in_int64_not_float (z : Z) :
  in_int64 z = true -> float_reading (RInt z) = false.
Proof.
  unfold in_int64, float_reading, int64_min, int64_max, uint64_max.
  change (2 ^ 64)%Z with 18446744073709551616%Z.
  change (2 ^ 63)%Z with 9223372036854775808%Z.
  intro H. apply andb_true_iff in H. destruct H as [H1 H2].
  apply Z.leb_le in H1, H2.
  apply orb_false_iff. split; apply Z.ltb_ge; lia.
Qed.









(** *** Every column, and the table *)









Lemma dict_get_In {V} (d : dict V) (k : string) (v : V) :
  dict_get d k = Some v -> In (k, v) d.
Proof.
  induction d as [|[k0 v0] d IH]; simpl; [discriminate|].
  destruct (String.eqb k0 k) eqn:He.
  - apply String.eqb_eq in He. subst. intro H. injection H as ->. now left.
  - intro H. right. now apply IH.
Qed.






(** An entry of a boolean column becomes [False] when it is absent and its
    truth value otherwise. *)
Lemma cast_boolean_value (E : env) (s s1 : series) (i : nat) (v : pyval) :
  cast_series E TBoolean s = Ret s1 ->
  nth_error (s_values s) i = Some v ->
  nth_error (s_values (null_pass s1)) i
  = Some (PBool (if isna v then false else truthy v)).
Proof.
  cbn [cast_series]. intros H Hi. injection H as <-.
  unfold null_pass, astype_bool, fillna. cbn [s_dtype s_values dtype_eqb orb].
  rewrite map_map, nth_error_map, Hi. cbn [option_map].
  destruct (isna v); [|reflexivity]. now destruct (s_dtype s).
Qed.

(** C6, as the code has it.  In a boolean column an absent entry becomes
    [False] and every other entry its Python truth value (so a non-empty
    text is [True] whatever it says); no entry is None. *)
Theorem cast_boolean_truthiness (E : env) (df df' : dataframe)
    (schema_map : dict string) :
  NoDup (dict_keys schema_map) ->
  cast_df_to_schema E df schema_map = Ret df' ->
  forall col sql_type s s' i v,
    dict_get schema_map col = Some sql_type ->
    tag_of sql_type = TBoolean ->
    In (col, s) (df_cols df) ->
    In (col, s') (df_cols df') ->
    nth_error (s_values s) i = Some v ->
    nth_error (s_values s') i
    = Some (PBool (if isna v then false else truthy v)).
Proof.
  intros Hnd H col sql_type s s' i v Hget Htag Hs Hin Hi.
  destruct (cast_df_to_schema_series E df df' schema_map Hnd H col s' Hin)
    as (s0 & s1 & Hin0 & Hcast & ->).
  rewrite Hget, Htag in Hcast.
  destruct (cast_df_to_schema_columns E df df' schema_map H) as [_ Hndc].
  rewrite (unique_column df col s s0 Hndc Hs Hin0) in Hi.
  now apply (cast_boolean_value E s0 s1 i v).
Qed.

Lemma cast_boolean_truthiness_witness :
  nth_error [PBool true; PBool false] 1 = Some (PBool false).
Proof.
  assert (Hnd : NoDup (dict_keys sample_schema)).
  { vm_compute. repeat (constructor; [simpl; intuition discriminate|]). constructor. }
  assert (Hcast : cast_df_to_schema sample_E sample_reconciled sample_schema
                  = Ret sample_coerced) by (vm_compute; reflexivity).
  apply (cast_boolean_truthiness sample_E sample_reconciled sample_coerced
           sample_schema Hnd Hcast "ativo" "bit"
           {| s_dtype := DObject; s_values := [PStr "abc"; PNone] |}
           {| s_dtype := DBool; s_values := [PBool true; PBool false] |}
           1%nat PNone).
  - vm_compute. reflexivity.
  - vm_compute. reflexivity.
  - vm_compute. tauto.
  - vm_compute. tauto.
  - reflexivity.
Defined.

(** C6, counterexample.  The text [abc] is no boolean in any notation; in a
    [bit] column it becomes [True], not [False]. *)
Lemma unparseable_text_casts_to_true :
  labelled "ativo" sample_reconciled
  = [ {| s_dtype := DObject; s_values := [PStr "abc"; PNone] |} ]
  /\ exists df',
       cast_df_to_schema sample_E sample_reconciled sample_schema = Ret df'
       /\ labelled "ativo" df'
          = [ {| s_dtype := DBool; s_values := [PBool true; PBool false] |} ].
Proof.
  split; [vm_compute; reflexivity|].
  exists sample_coerced. split; vm_compute; reflexivity.
Qed.

(** C1, witness: the call of the writer in the sample run. *)
Lemma writer_gets_schema_columns_witness :
  writer_in_order sample_E
    (EvSafeInsert "dbo.estoque" sample_coerced
       ["cod_item"; "qtd_saldo"; "ativo"; "dt_mov"; "vl_custo"]).
Proof.
  destruct (writer_gets_schema_columns sample_E (sample_world (Some (Some "S")))
              (EvSafeInsert "dbo.estoque" sample_coerced
                 ["cod_item"; "qtd_saldo"; "ativo"; "dt_mov"; "vl_custo"]))
    as [H|H].
  - vm_compute. tauto.
  - vm_compute in H. contradiction.
  - exact H.
Defined.

(** ** The notification message *)

Lemma startswith_refl (s : string) : Str.startswith s s = true.
Proof. induction s as [|c s IH]; simpl; [reflexivity|]. now rewrite Ascii.eqb_refl. Qed.

Lemma startswith_trans (a b c : string) :
  Str.startswith a b = true -> Str.startswith b c = true ->
  Str.startswith a c = true.
Proof.
  revert b c. induction a as [|x a IH]; intros b c Hab Hbc; [reflexivity|].
  destruct b as [|y b]; [discriminate|]. destruct c as [|z c]; [discriminate|].
  simpl in *. apply andb_true_iff in Hab, Hbc.
  destruct Hab as [Hxy Hab], Hbc as [Hyz Hbc].
  apply Ascii.eqb_eq in Hxy, Hyz. subst. rewrite Ascii.eqb_refl. simpl. eauto.
Qed.

Lemma startswith_take (n : nat) (s : string) :
  Str.startswith (Str.take n s) s = true.
Proof.
  revert s. induction n as [|n IH]; intros [|c s]; simpl; try reflexivity.
  now rewrite Ascii.eqb_refl, IH.
Qed.

Lemma length_take (n : nat) (s : string) :
  (String.length (Str.take n s) <= n)%nat.
Proof.
  revert s. induction n as [|n IH]; intros [|c s]; simpl; try lia.
  specialize (IH s). lia.
Qed.

Lemma startswith_rstrip (p : ascii -> bool) (s : string) :
  Str.startswith (Str.rstrip_by p s) s = true.
Proof.
  induction s as [|c s IH]; simpl; [reflexivity|].
  destruct (Str.rstrip_by p s) as [|c' r].
  - now destruct (p c); simpl; rewrite ?Ascii.eqb_refl.
  - simpl in *. now rewrite Ascii.eqb_refl.
Qed.

Lemma startswith_before_first (d : ascii) (s : string) :
  Str.startswith (Str.before_first d s) s = true.
Proof.
  induction s as [|c s IH]; simpl; [reflexivity|].
  destruct (Ascii.eqb c d); simpl; [reflexivity|]. now rewrite Ascii.eqb_refl.
Qed.

Lemma startswith_lstrip_before_first (p : ascii -> bool) (d : ascii) (s : string) :
  Str.startswith (Str.lstrip_by p (Str.before_first d s)) (Str.lstrip_by p s) = true.
Proof.
  induction s as [|c s IH]; simpl; [reflexivity|].
  destruct (Ascii.eqb c d); simpl.
  - reflexivity.
  - destruct (p c); [exact IH|]. simpl.
    now rewrite Ascii.eqb_refl, startswith_before_first.
Qed.

Lemma before_first_absent (d : ascii) (s : string) :
  Str.has_char d s = false -> Str.before_first d s = s.
Proof.
  induction s as [|c s IH]; simpl; intro H; [reflexivity|].
  apply orb_false_iff in H. destruct H as [Hc Hs]. rewrite Hc. now rewrite IH.
Qed.

Lemma startswith_split (a b : string) :
  Str.startswith a b = true -> exists t, b = a ++ t.
Proof.
  revert b. induction a as [|x a IH]; intros b H.
  - now exists b.
  - destruct b as [|y b]; [discriminate|]. simpl in H.
    apply andb_true_iff in H. destruct H as [Hxy Hab].
    apply Ascii.eqb_eq in Hxy. subst y.
    destruct (IH b Hab) as [t ->]. now exists t.
Qed.

Lemma lstrip_split (p : ascii -> bool) (s : string) :
  exists blank, s = blank ++ Str.lstrip_by p s /\ Str.forallb p blank = true.
Proof.
  induction s as [|c s IH]; simpl.
  - now exists "".
  - destruct (p c) eqn:Hc.
    + destruct IH as (blank & Hs & Hb). exists (String c blank). simpl.
      split; [now rewrite <- Hs|now rewrite Hc].
    + now exists "".
Qed.

Lemma take_all (n : nat) (s : string) :
  (String.length s <= n)%nat -> Str.take n s = s.
Proof.
  revert s. induction n as [|n IH]; intros [|c s] H; simpl in *;
    try reflexivity; try lia.
  rewrite IH; [reflexivity|lia].
Qed.

Lemma length_take_min (n : nat) (s : string) :
  String.length (Str.take n s) = Nat.min n (String.length s).
Proof.
  revert s. induction n as [|n IH]; intros [|c s]; simpl; try reflexivity.
  now rewrite IH.
Qed.

(** C7, as the code has it.  After its heading the message carries the
    text that stands before the first colon of the error text, without the
    white space around it, cut to its first 200 characters and followed by
    three dots when it was longer.  What is carried stands in the error
    text right after its leading white space. *)
Theorem mensagem_carries_leading_segment (erro_msg contexto : string) :
  let core := Str.strip (Str.before_first colon erro_msg) in
  let seg := Str.take 200 core in
  mensagem_of erro_msg contexto
  = heading contexto ++ seg
    ++ (if (200 <? String.length core)%nat then "..." else "")
  /\ String.length seg = Nat.min 200 (String.length core)
  /\ exists blank rest,
       erro_msg = blank ++ seg ++ rest
       /\ Str.forallb Str.is_space blank = true.
Proof.
  intros core seg.
  assert (Hprinc : erro_principal_of erro_msg
                   = if (200 <? String.length core)%nat
                     then Str.take 200 core ++ "..." else core).
  { unfold erro_principal_of, core.
    destruct (Str.has_char colon erro_msg) eqn:Hc; [reflexivity|].
    now rewrite before_first_absent. }
  assert (Hmsg : mensagem_of erro_msg contexto
                 = heading contexto ++ erro_principal_of erro_msg).
  { unfold mensagem_of, heading. destruct (negb (String.eqb contexto ""));
      [|reflexivity].
    now rewrite !str_app_assoc. }
  split; [|split].
  - rewrite Hmsg, Hprinc. unfold seg.
    destruct (200 <? String.length core)%nat eqn:Hlen; [reflexivity|].
    apply Nat.ltb_ge in Hlen. now rewrite (take_all 200 core Hlen), str_app_nil_r.
  - apply length_take_min.
  - destruct (startswith_split _ _ (startswith_before_first colon erro_msg))
      as [r1 H1].
    destruct (lstrip_split Str.is_space (Str.before_first colon erro_msg))
      as (blank & H2 & Hb).
    destruct (startswith_split _ _
                (startswith_rstrip Str.is_space
                   (Str.lstrip_by Str.is_space (Str.before_first colon erro_msg))))
      as [r2 H3].
    destruct (startswith_split _ _ (startswith_take 200 core)) as [r3 H4].
    exists blank, (r3 ++ r2 ++ r1). split; [|exact Hb].
    rewrite H1 at 1. rewrite H2 at 1. rewrite H3 at 1.
    fold (Str.strip (Str.before_first colon erro_msg)). fold core.
    rewrite H4 at 1. fold seg. now rewrite !str_app_assoc.
Qed.

(** C7, counterexample.  The error text begins with a blank and has a
    colon: the message carries [boom], the four characters between the
    blank and the colon, which is not a leading segment of the text. *)
Lemma leading_white_space_is_skipped :
  mensagem_of " boom: details" "" = "Erro: boom"
  /\ Str.startswith "boom" " boom: details" = false.
Proof. split; reflexivity. Qed.

(** ** Effects of the stages *)

Lemma enviar_email_erro_eq (E : env) (erro_msg contexto : string) (w : world) :
  enviar_email_erro E erro_msg contexto w
  = (Ret tt, add_trace (mail_events E erro_msg contexto) w).
Proof.
  unfold enviar_email_erro, mail_events, bind, try_except, check, log, add_trace.
  simpl. destruct (get_oracle_hook E); simpl; [reflexivity|].
  destruct (send_mail_fault E _); reflexivity.
Qed.

Lemma notified_in_app (a b : list event) :
  notified_in (a ++ b) = (notified_in a ++ notified_in b)%list.
Proof.
  induction a as [|ev a IH]; simpl; [reflexivity|].
  destruct ev; simpl; now rewrite IH.
Qed.

Lemma queries_in_app (a b : list event) :
  queries_in (a ++ b) = (queries_in a ++ queries_in b)%list.
Proof.
  induction a as [|ev a IH]; simpl; [reflexivity|].
  destruct ev; simpl; now rewrite IH.
Qed.

Lemma notified_mail_events (E : env) (erro_msg contexto : string) :
  notified_in (mail_events E erro_msg contexto) = [(erro_msg, contexto)].
Proof.
  unfold mail_events. destruct (get_oracle_hook E); [reflexivity|].
  now destruct (send_mail_fault E _).
Qed.

Lemma queries_mail_events (E : env) (erro_msg contexto : string) :
  queries_in (mail_events E erro_msg contexto) = [].
Proof.
  unfold mail_events. destruct (get_oracle_hook E); [reflexivity|].
  now destruct (send_mail_fault E _).
Qed.

Lemma In_notify_mail_events (E : env) (erro_msg contexto : string) :
  In (EvNotify erro_msg contexto) (mail_events E erro_msg contexto).
Proof.
  unfold mail_events. destruct (get_oracle_hook E); [now left|].
  destruct (send_mail_fault E _); simpl; auto.
Qed.

(** What [load_table] leaves untouched. *)
Lemma load_table_frame (E : env) (destino : string) (df : dataframe)
    (w : world) :
  let w' := snd (load_table E destino df w) in
  tb_config w' = tb_config w /\ tb_programacao w' = tb_programacao w
  /\ notified w' = notified w /\ queries w' = queries w
  /\ (forall e, get_sqlserver_schema E destino = Raise e ->
        load_table E destino df w = (Raise e, w)).
Proof.
  unfold load_table, bind, lift, safe_insert_rows, bind.
  destruct (get_sqlserver_schema E destino) as [schema|e0] eqn:Hs.
  - destruct (prepare_table E df schema) as [df'|];
      [|simpl; repeat split; intros; discriminate].
    destruct (mssql_truncate_fault E destino);
      [simpl; repeat split; intros; discriminate|].
    simpl. destruct (insert_into _ _ _) as [rows fault]. simpl.
    destruct fault; simpl; repeat split; intros; discriminate.
  - simpl. repeat split. intros e He. now injection He as <-.
Qed.

Lemma process_statement_frame (E : env) (stmt : string) (d : option string)
    (w : world) :
  let w' := snd (process_statement E stmt d w) in
  tb_config w' = tb_config w /\ tb_programacao w' = tb_programacao w
  /\ notified w' = notified w /\ queries w' = stmt :: queries w.
Proof.
  unfold process_statement.
  set (w0 := snd (log (EvOracleQuery stmt) w)).
  assert (H0 : tb_config w0 = tb_config w /\ tb_programacao w0 = tb_programacao w
               /\ notified w0 = notified w /\ queries w0 = stmt :: queries w)
    by (repeat split).
  destruct (oracle_get_pandas_df E stmt) as [df|]; [|exact H0].
  destruct (df_empty (lower_columns df)); [exact H0|].
  destruct (derive_destino stmt) as [dest|]; [|exact H0].
  pose proof (load_table_frame E dest (lower_columns df) w0) as Hl.
  destruct (load_table E dest (lower_columns df) w0) as [r w']. simpl in Hl |- *.
  destruct H0 as (A & B & C & D), Hl as (A' & B' & C' & D' & _).
  repeat split; congruence.
Qed.

Lemma run_ok_frame (E : env) (pre : list string) (d d1 : option string)
    (w w1 : world) :
  run_ok E pre d w = Some (d1, w1) ->
  tb_config w1 = tb_config w /\ tb_programacao w1 = tb_programacao w
  /\ notified w1 = notified w /\ queries w1 = (rev pre ++ queries w)%list.
Proof.
  revert d w. induction pre as [|stmt pre IH]; intros d w H; simpl in H.
  - injection H as <- <-. repeat split.
  - pose proof (process_statement_frame E stmt d w) as Hp.
    destruct (process_statement E stmt d w) as [[r d'] w']. simpl in Hp.
    destruct r; [|discriminate].
    destruct (IH d' w' H) as (A & B & C & D), Hp as (A' & B' & C' & D').
    repeat split; try congruence.
    rewrite D, D'. simpl. now rewrite <- app_assoc.
Qed.

Lemma for_selects_app (E : env) (pre rest : list string) (d d1 : option string)
    (w w1 : world) :
  run_ok E pre d w = Some (d1, w1) ->
  for_selects E (pre ++ rest) d w = for_selects E rest d1 w1.
Proof.
  revert d w. induction pre as [|stmt pre IH]; intros d w H; simpl in H.
  - now injection H as <- <-.
  - cbn [app for_selects].
    destruct (process_statement E stmt d w) as [[r d'] w'].
    destruct r; [|discriminate]. now apply IH.
Qed.

(** The loop either gets through all statements, or stops at the first
    one that fails, notifies once and raises what that statement raised. *)
Lemma for_selects_outcome (E : env) (selects : list string)
    (d : option string) (w : world) :
  (exists d1 w1, run_ok E selects d w = Some (d1, w1)
                 /\ for_selects E selects d w = (Ret tt, w1))
  \/ (exists pre stmt post d1 w1 e d2 w2,
        selects = (pre ++ stmt :: post)%list
        /\ run_ok E pre d w = Some (d1, w1)
        /\ process_statement E stmt d1 w1 = (Raise e, d2, w2)
        /\ for_selects E selects d w
           = (Raise e, add_trace (mail_events E (exn_text e) (ctx_tabela d2)) w2)).
Proof.
  revert d w. induction selects as [|stmt rest IH]; intros d w.
  - left. exists d, w. now split.
  - cbn [for_selects run_ok].
    destruct (process_statement E stmt d w) as [[r d'] w'] eqn:Hp.
    destruct r as [u|e].
    + destruct (IH d' w') as [(d1 & w1 & H1 & H2)|
                              (pre & s0 & post & d1 & w1 & e & d2 & w2 & Hs & H1 & H2 & H3)].
      * left. exists d1, w1. now split.
      * right. exists (stmt :: pre), s0, post, d1, w1, e, d2, w2.
        repeat split; try assumption.
        -- now rewrite Hs.
        -- simpl. now rewrite Hp.
    + right. exists [], stmt, rest, d, w, e, d', w'.
      repeat split; try assumption.
      unfold bind. now rewrite enviar_email_erro_eq.
Qed.

(** ** The run gate *)

Lemma checa_flag_eq (E : env) (w : world) :
  checa_flag E w
  = match flag_read E w with
    | Ret flag => (Ret (followed_task flag), w)
    | Raise e => (Raise e, add_trace (mail_events E (exn_text e) ctx_flag) w)
    end.
Proof.
  unfold checa_flag, checa_flag_body, flag_read, try_except, bind, check, select_flag, bind,
    get_world, ret, raise.
  destruct (get_oracle_hook E) as [e|] eqn:Hh; simpl.
  - now rewrite enviar_email_erro_eq.
  - destruct (flag_select_fault E) as [e|]; simpl; [|reflexivity].
    now rewrite enviar_email_erro_eq.
Qed.

Lemma followed_task_S (flag : option (option string)) :
  followed_task flag = "extrai_envia_sqlserver" <-> flag = Some (Some "S").
Proof.
  unfold followed_task. destruct flag as [[v|]|]; try (split; discriminate).
  destruct (String.eqb v "S") eqn:Hv.
  - apply String.eqb_eq in Hv. subst. now split.
  - split; [discriminate|]. intro H. injection H as ->. discriminate.
Qed.

Lemma followed_task_cases (flag : option (option string)) :
  (flag = Some (Some "S") /\ followed_task flag = "extrai_envia_sqlserver")
  \/ (flag <> Some (Some "S") /\ followed_task flag = "fim_sem_execucao").
Proof.
  unfold followed_task. destruct flag as [[v|]|];
    try (right; split; [discriminate|reflexivity]).
  destruct (String.eqb v "S") eqn:Hv.
  - apply String.eqb_eq in Hv. subst. now left.
  - right. split; [|reflexivity]. intro H. injection H as ->. discriminate.
Qed.

(** C3, as the code has it.  The extraction task is executed exactly when
    the flag is read and is ['S']; when it is read and is anything else
    (['N'], NULL, no row) the run ends in the skipped no-op state and
    nothing has changed; when the read fails the operator is notified and
    the gate task fails, so that neither the extraction nor the no-op end
    is reached. *)
Theorem gate_decides_by_flag (E : env) (w : world) :
  let run := fst (run_dag E w) in
  let w' := snd (run_dag E w) in
  (extraction_ran run <-> flag_read E w = Ret (Some (Some "S")))
  /\ (forall flag, flag_read E w = Ret flag -> flag <> Some (Some "S") ->
        skipped_no_op run /\ w' = w)
  /\ (forall e, flag_read E w = Raise e ->
        gate_failed run
        /\ w' = add_trace (mail_events E (exn_text e) ctx_flag) w).
Proof.
  unfold run_dag. rewrite checa_flag_eq.
  destruct (flag_read E w) as [flag|e] eqn:Hf.
  - destruct (followed_task_cases flag) as [[-> Ht]|[Hne Ht]]; rewrite Ht.
    + cbn [branch_to String.eqb Ascii.eqb Bool.eqb run_after].
      destruct (extrai_envia_sqlserver E w) as [[u|e1] w2];
        destruct (run_after _ (copia_programacao E) w2) as [s3 w3];
        destruct (run_after s3 (ajusta_roda_integraca_aps E) w3) as [s4 w4];
        cbn; unfold extraction_ran; cbn.
      * repeat split; auto; intros; congruence.
      * repeat split; auto; intros; congruence.
    + cbn. unfold extraction_ran, skipped_no_op. cbn.
      repeat split; auto; try discriminate.
      * intros [H|H]; discriminate.
      * intro H. injection H as ->. contradiction.
  - cbn. unfold extraction_ran, gate_failed. cbn.
    repeat split; try discriminate.
    + intros [H|H]; discriminate.
    + now injection H as <-.
Qed.

Lemma gate_decides_by_flag_witness :
  skipped_no_op (fst (run_dag sample_E (sample_world (Some (Some "N")))))
  /\ snd (run_dag sample_E (sample_world (Some (Some "N"))))
     = sample_world (Some (Some "N")).
Proof.
  destruct (gate_decides_by_flag sample_E (sample_world (Some (Some "N"))))
    as (_ & Hskip & _).
  apply (Hskip (Some (Some "N"))).
  - reflexivity.
  - discriminate.
Defined.

(** C3, counterexample.  The flag is ['S'] but reading it fails: the gate
    task fails after notifying, and the no-op end is not reached. *)
Lemma read_failure_is_not_a_skip :
  let E := sample_env (Some connection_lost) (Ret programacao_result) in
  let w := sample_world (Some (Some "S")) in
  flag_read E w = Raise connection_lost
  /\ st_checa_flag (fst (run_dag E w)) = Failed
  /\ st_fim_skip (fst (run_dag E w)) = UpstreamFailed
  /\ ~ skipped_no_op (fst (run_dag E w)).
Proof.
  repeat split. unfold skipped_no_op. vm_compute. intros (H & _). discriminate.
Qed.

(** ** The reverse copy *)

(** C5, as the code has it.  When the source table has rows, the copy
    empties the Oracle table and inserts every source row as it is, column
    for column; when the source table is empty the copy returns at once and
    the Oracle table keeps what it had. *)
Theorem copia_programacao_replaces (E : env) (w : world) (df : dataframe) :
  get_mssql_hook E = None -> get_oracle_hook E = None ->
  mssql_programacao E = Ret df ->
  (df_empty df = true -> copia_programacao E w = (Ret tt, w))
  /\ (df_empty df = false ->
      oracle_truncate_fault E = None -> oracle_insert_fault E = None ->
      let w' := snd (copia_programacao E w) in
      fst (copia_programacao E w) = Ret tt
      /\ tb_programacao w' = itertuples df
      /\ tb_config w' = tb_config w
      /\ mssql_tables w' = mssql_tables w
      /\ trace w' = trace w).
Proof.
  intros Hm Ho Hdf.
  unfold copia_programacao, copia_programacao_body, try_except, bind, check, lift, set_programacao,
    get_world, ret.
  rewrite Hm, Ho, Hdf. cbn. split.
  - intros ->. reflexivity.
  - intros -> -> ->. cbn. repeat split.
Qed.

Lemma copia_programacao_replaces_witness :
  tb_programacao (snd (copia_programacao sample_E (sample_world (Some (Some "S")))))
  = [[PInt 1; PStr "M1"]; [PInt 2; PStr "M2"]].
Proof.
  destruct (copia_programacao_replaces sample_E (sample_world (Some (Some "S")))
              programacao_result eq_refl eq_refl eq_refl) as [_ H].
  destruct (H eq_refl eq_refl eq_refl) as (_ & Hrows & _).
  exact Hrows.
Defined.

(** C5, counterexample.  With an empty source table the copy neither
    truncates nor inserts: the Oracle table still holds its old row, not the
    (empty) contents of the source. *)
Lemma empty_source_leaves_destination :
  let E := sample_env None (Ret empty_programacao) in
  let w := sample_world (Some (Some "S")) in
  itertuples empty_programacao = []
  /\ copia_programacao E w = (Ret tt, w)
  /\ tb_programacao (snd (copia_programacao E w)) = [[PInt 9; PStr "M9"]].
Proof. repeat split. Qed.

(** ** Failures: caught, notified, raised again *)

Lemma quiet_ret {A} (a : A) : quiet (ret a).
Proof. intro w. reflexivity. Qed.

Lemma quiet_raise {A} (e : exn) : quiet (@raise A e).
Proof. intro w. reflexivity. Qed.

Lemma quiet_lift {A} (o : outcome A) : quiet (lift o).
Proof. intro w. reflexivity. Qed.

Lemma quiet_check (fault : option exn) : quiet (check fault).
Proof. intro w. now destruct fault. Qed.

Lemma quiet_get_world : quiet get_world.
Proof. intro w. reflexivity. Qed.

Lemma quiet_set_programacao (rows : list row) : quiet (set_programacao rows).
Proof. intro w. reflexivity. Qed.

Lemma quiet_set_config (v : option (option string)) : quiet (set_config v).
Proof. intro w. reflexivity. Qed.

Lemma quiet_bind {A B} (c : M A) (k : A -> M B) :
  quiet c -> (forall a, quiet (k a)) -> quiet (bind c k).
Proof.
  intros Hc Hk w. unfold bind. specialize (Hc w).
  destruct (c w) as [[a|e] w1]; simpl in *; [|exact Hc].
  now rewrite (Hk a w1).
Qed.

Create HintDb quiet.
#[local] Hint Resolve quiet_ret quiet_raise quiet_lift quiet_check
  quiet_get_world quiet_set_programacao quiet_set_config : quiet.

Ltac quiet_steps :=
  repeat first
    [ solve [auto with quiet]
    | apply quiet_bind
    | match goal with |- forall _, _ => intro end ].

Lemma handler_outcome {A} (E : env) (contexto : string) (body : M A) (w : world) :
  fst (try_except body (notify_and_reraise E contexto) w) = fst (body w).
Proof.
  unfold try_except, notify_and_reraise, bind.
  destruct (body w) as [[a|e] w1]; [reflexivity|].
  now rewrite enviar_email_erro_eq.
Qed.

Lemma handler_caught_once {A} (E : env) (contexto : string) (body : M A)
    (w : world) :
  quiet body ->
  caught_once contexto (try_except body (notify_and_reraise E contexto)) w.
Proof.
  intro Hq. unfold caught_once, try_except, notify_and_reraise, bind.
  specialize (Hq w). destruct (body w) as [[a|e] w1]; simpl in Hq; [exact Hq|].
  rewrite enviar_email_erro_eq. simpl. unfold notified in *. simpl.
  now rewrite notified_in_app, notified_mail_events, Hq.
Qed.

Lemma checa_flag_caught_once (E : env) (w : world) :
  caught_once ctx_flag (checa_flag E) w.
Proof.
  apply (handler_caught_once E ctx_flag). unfold checa_flag_body, select_flag. quiet_steps.
Qed.

Lemma copia_programacao_caught_once (E : env) (w : world) :
  caught_once ctx_copia (copia_programacao E) w.
Proof.
  apply (handler_caught_once E ctx_copia). unfold copia_programacao_body. quiet_steps.
  destruct (df_empty _); quiet_steps.
  destruct (insert_into _ _ _). quiet_steps.
Qed.

Lemma ajusta_caught_once (E : env) (w : world) :
  caught_once ctx_ajusta (ajusta_roda_integraca_aps E) w.
Proof.
  apply (handler_caught_once E ctx_ajusta).
  unfold ajusta_roda_integraca_aps_body, update_flag, select_flag.
  quiet_steps.
  - match goal with
    | |- quiet (match tb_config ?x with _ => _ end) => destruct (tb_config x)
    end; quiet_steps.
  - match goal with
    | |- quiet (match ?r with _ => _ end) => destruct r as [[v|]|]
    end; quiet_steps.
    destruct (String.eqb v "N"); quiet_steps.
Qed.

Lemma notify_and_reraise_eq {A} (E : env) (contexto : string) (e : exn)
    (w : world) :
  @notify_and_reraise A E contexto e w
  = (Raise e, add_trace (mail_events E (exn_text e) contexto) w).
Proof.
  unfold notify_and_reraise, bind. now rewrite enviar_email_erro_eq.
Qed.

Lemma notified_add_mail (E : env) (erro_msg contexto : string) (w : world) :
  notified (add_trace (mail_events E erro_msg contexto) w)
  = (erro_msg, contexto) :: notified w.
Proof.
  unfold notified. simpl. now rewrite notified_in_app, notified_mail_events.
Qed.

Lemma extrai_envia_sqlserver_eq (E : env) (w : world) :
  extrai_envia_sqlserver E w
  = match setup_fault E with
    | Some e => notify_and_reraise E ctx_extracao e w
    | None =>
        match queries_file E with
        | Some lines =>
            try_except (for_selects E (selects_of lines) None)
              (notify_and_reraise E ctx_extracao) w
        | None => (Ret tt, w)
        end
    end.
Proof.
  unfold extrai_envia_sqlserver, extrai_envia_sqlserver_body, setup_fault, try_except.
  destruct (queries_file E) as [lines|]; [|reflexivity].
  unfold bind at 1. unfold check at 1.
  destruct (get_oracle_hook E) as [e|]; [reflexivity|].
  unfold bind at 1. unfold check at 1. unfold ret.
  destruct (get_mssql_hook E) as [e|]; reflexivity.
Qed.

Lemma extrai_notifications (E : env) (w : world) :
  match extrai_envia_sqlserver E w with
  | (Ret _, w') => notified w' = notified w
  | (Raise e, w') =>
      match setup_fault E with
      | Some _ => notified w' = (exn_text e, ctx_extracao) :: notified w
      | None => exists d, notified w'
                          = (exn_text e, ctx_extracao)
                            :: (exn_text e, ctx_tabela d) :: notified w
      end
  end.
Proof.
  rewrite extrai_envia_sqlserver_eq.
  destruct (setup_fault E) as [e|] eqn:Hsetup.
  - rewrite notify_and_reraise_eq. apply notified_add_mail.
  - destruct (queries_file E) as [lines|]; [|reflexivity].
    unfold try_except.
    destruct (for_selects_outcome E (selects_of lines) None w)
      as [(d1 & w1 & Hok & Hrun)|
          (pre & stmt & post & d1 & w1 & e & d2 & w2 & Hs & Hok & Hp & Hrun)];
      rewrite Hrun.
    + now destruct (run_ok_frame E _ _ _ _ _ Hok) as (_ & _ & Hn & _).
    + rewrite notify_and_reraise_eq. exists d2.
      rewrite !notified_add_mail. do 2 f_equal.
      destruct (run_ok_frame E _ _ _ _ _ Hok) as (_ & _ & Hn & _).
      pose proof (process_statement_frame E stmt d1 w1) as Hf.
      rewrite Hp in Hf. simpl in Hf. destruct Hf as (_ & _ & Hn2 & _).
      congruence.
Qed.

Lemma caught_once_surfaces {A} (contexto : string) (fault : option exn)
    (stage : M A) (w : world) :
  caught_once contexto stage w ->
  (match fault with
   | Some e => fst (stage w) = Raise e
   | None => exists a, fst (stage w) = Ret a
   end) ->
  surfaces contexto fault stage w.
Proof.
  unfold caught_once, surfaces. destruct (stage w) as [[a|e0] w1]; cbn [fst snd].
  - destruct fault as [e|]; [intros _ H; discriminate|]. now split.
  - destruct fault as [e|].
    + intros Hn H. injection H as <-. now split.
    + intros _ [a H]. discriminate.
Qed.

Lemma copia_programacao_outcome (E : env) (w : world) :
  match copia_fault E with
  | Some e => fst (copia_programacao E w) = Raise e
  | None => exists a, fst (copia_programacao E w) = Ret a
  end.
Proof.
  change (copia_programacao E)
    with (try_except (copia_programacao_body E)
            (notify_and_reraise E ctx_copia)).
  rewrite handler_outcome.
  unfold copia_fault, copia_programacao_body, bind, check, lift,
    set_programacao, get_world, ret, raise.
  destruct (get_mssql_hook E); [reflexivity|].
  destruct (get_oracle_hook E); [reflexivity|].
  destruct (mssql_programacao E) as [df|]; [|reflexivity]. cbn.
  destruct (df_empty df); [now exists tt|].
  destruct (oracle_truncate_fault E); [reflexivity|]. cbn.
  destruct (oracle_insert_fault E) as [[n e]|]; cbn; [reflexivity|now exists tt].
Qed.

Lemma ajusta_outcome (E : env) (w : world) :
  match ajusta_fault E w with
  | Some e => fst (ajusta_roda_integraca_aps E w) = Raise e
  | None => exists a, fst (ajusta_roda_integraca_aps E w) = Ret a
  end.
Proof.
  change (ajusta_roda_integraca_aps E)
    with (try_except (ajusta_roda_integraca_aps_body E)
            (notify_and_reraise E ctx_ajusta)).
  rewrite handler_outcome.
  unfold ajusta_fault, ajusta_roda_integraca_aps_body, bind, check,
    update_flag, select_flag, bind, check, get_world, set_config, ret, raise.
  destruct (get_oracle_hook E); [reflexivity|].
  destruct (flag_update_fault E); [reflexivity|]. cbn.
  destruct (tb_config w) as [v|] eqn:Hc; cbn.
  - destruct (flag_verify_fault E); [reflexivity|]. cbn. eauto.
  - destruct (flag_verify_fault E); [reflexivity|]. cbn. now rewrite Hc.
Qed.

Lemma process_statement_outcome (E : env) (stmt : string) (d : option string)
    (w : world) :
  fst (fst (process_statement E stmt d w))
  = match statement_fault E stmt with
    | Some e => Raise e
    | None => Ret tt
    end.
Proof.
  unfold process_statement, statement_fault.
  destruct (oracle_get_pandas_df E stmt) as [df|]; [|reflexivity].
  destruct (df_empty (lower_columns df)); [reflexivity|].
  destruct (derive_destino stmt) as [dest|]; [|reflexivity].
  unfold load_table, bind, lift, safe_insert_rows, bind, check, log,
    get_world, set_mssql_table, ret, raise.
  destruct (get_sqlserver_schema E dest) as [schema|]; [|reflexivity].
  destruct (prepare_table E (lower_columns df) schema) as [df'|]; [|reflexivity].
  destruct (mssql_truncate_fault E dest); [reflexivity|]. cbn.
  destruct (mssql_insert_fault E dest) as [[n e]|]; reflexivity.
Qed.

Lemma for_selects_fault (E : env) (selects : list string) (d : option string)
    (w : world) :
  fst (for_selects E selects d w)
  = match first_fault E selects with
    | Some e => Raise e
    | None => Ret tt
    end.
Proof.
  revert d w. induction selects as [|stmt rest IH]; intros d w; [reflexivity|].
  cbn [for_selects first_fault].
  pose proof (process_statement_outcome E stmt d w) as Hp.
  destruct (process_statement E stmt d w) as [[r d'] w']. cbn [fst] in Hp.
  destruct (statement_fault E stmt) as [e|]; subst r.
  - unfold bind. now rewrite enviar_email_erro_eq.
  - apply IH.
Qed.

Lemma extrai_outcome (E : env) (w : world) :
  fst (extrai_envia_sqlserver E w)
  = match extrai_fault E with
    | Some e => Raise e
    | None => Ret tt
    end.
Proof.
  rewrite extrai_envia_sqlserver_eq. unfold extrai_fault.
  destruct (setup_fault E) as [e|].
  - now rewrite notify_and_reraise_eq.
  - destruct (queries_file E) as [lines|]; [|reflexivity].
    rewrite handler_outcome. apply for_selects_fault.
Qed.

(** C8, as the code has it.  Whatever failure the components of a stage
    meet first, the stage raises that very exception and notifies with its
    own context; a stage that meets none returns and notifies nobody.  The
    gate, the copy and the flag reset notify once.  The extraction notifies
    once for a failure before its loop and twice for the failure of a
    statement: first with the table context, then with the context of the
    stage.  [enviar_email_erro] itself never raises, whatever happens to
    the mail. *)
Theorem failures_notified_and_reraised (E : env) (w : world) :
  surfaces ctx_flag
    (match flag_read E w with Raise e => Some e | Ret _ => None end)
    (checa_flag E) w
  /\ surfaces ctx_copia (copia_fault E) (copia_programacao E) w
  /\ surfaces ctx_ajusta (ajusta_fault E w) (ajusta_roda_integraca_aps E) w
  /\ match extrai_fault E with
     | None => fst (extrai_envia_sqlserver E w) = Ret tt
               /\ notified (snd (extrai_envia_sqlserver E w)) = notified w
     | Some e =>
         fst (extrai_envia_sqlserver E w) = Raise e
         /\ match setup_fault E with
            | Some _ =>
                notified (snd (extrai_envia_sqlserver E w))
                = (exn_text e, ctx_extracao) :: notified w
            | None =>
                exists d, notified (snd (extrai_envia_sqlserver E w))
                          = (exn_text e, ctx_extracao)
                            :: (exn_text e, ctx_tabela d) :: notified w
            end
     end
  /\ (forall erro_msg contexto,
        fst (enviar_email_erro E erro_msg contexto w) = Ret tt
        /\ notified (snd (enviar_email_erro E erro_msg contexto w))
           = (erro_msg, contexto) :: notified w).
Proof.
  split; [|split; [|split; [|split]]].
  - apply caught_once_surfaces; [apply checa_flag_caught_once|].
    rewrite checa_flag_eq. destruct (flag_read E w); cbn; eauto.
  - apply caught_once_surfaces;
      [apply copia_programacao_caught_once|apply copia_programacao_outcome].
  - apply caught_once_surfaces; [apply ajusta_caught_once|apply ajusta_outcome].
  - pose proof (extrai_outcome E w) as Ho.
    pose proof (extrai_notifications E w) as Hn.
    destruct (extrai_envia_sqlserver E w) as [[u|e0] w1]; cbn [fst snd] in *;
      destruct (extrai_fault E) as [e|]; try discriminate.
    + split; [now destruct u|exact Hn].
    + injection Ho as ->. split; [reflexivity|exact Hn].
  - intros erro_msg contexto. rewrite enviar_email_erro_eq. cbn [fst snd].
    split; [reflexivity|apply notified_add_mail].
Qed.

(** C8, counterexample.  In the sample run the destination of the second
    statement has no columns in the catalog: this one failure is caught
    twice and the operator is notified twice. *)
Lemma statement_failure_notifies_twice :
  let w' := snd (extrai_envia_sqlserver sample_E (sample_world (Some (Some "S")))) in
  let text := "Colunas n" ++ Str.chr 227 ++ "o encontradas para dbo.lote" in
  fst (extrai_envia_sqlserver sample_E (sample_world (Some (Some "S"))))
    = Raise {| exn_type := "ValueError"; exn_text := text |}
  /\ notified w' = [ (text, ctx_extracao);
                     (text, "processamento da tabela dbo.lote") ]
  /\ List.length (notified w') = 2%nat.
Proof. vm_compute. repeat split. Qed.

(** ** A failing statement aborts the run *)

Lemma flag_read_hook (E : env) (w : world) (flag : option (option string)) :
  flag_read E w = Ret flag -> get_oracle_hook E = None /\ tb_config w = flag.
Proof.
  unfold flag_read. destruct (get_oracle_hook E); [discriminate|].
  destruct (flag_select_fault E); [discriminate|].
  intro H. injection H as <-. now split.
Qed.

Lemma for_selects_failure (E : env) (pre post : list string) (stmt : string)
    (d0 d1 d2 : option string) (w w1 w2 : world) (e : exn) :
  run_ok E pre d0 w = Some (d1, w1) ->
  process_statement E stmt d1 w1 = (Raise e, d2, w2) ->
  for_selects E (pre ++ stmt :: post) d0 w
  = (Raise e, add_trace (mail_events E (exn_text e) (ctx_tabela d2)) w2).
Proof.
  intros Hok Hp. rewrite (for_selects_app E pre _ d0 d1 w w1 Hok).
  cbn [for_selects]. rewrite Hp. unfold bind. now rewrite enviar_email_erro_eq.
Qed.

Lemma startswith_app (a b : string) : Str.startswith a (a ++ b) = true.
Proof.
  induction a as [|c a IH]; simpl; [reflexivity|]. now rewrite Ascii.eqb_refl.
Qed.

Lemma contains_app (d a b : string) : Str.contains d (a ++ d ++ b) = true.
Proof.
  induction a as [|c a IH].
  - simpl. destruct (d ++ b) eqn:Hdb; simpl; rewrite <- Hdb, startswith_app;
      reflexivity.
  - simpl. rewrite IH. apply orb_true_r.
Qed.

Lemma mensagem_contains_table (erro_msg d : string) :
  Str.contains d (mensagem_of erro_msg (ctx_tabela (Some d))) = true.
Proof.
  unfold mensagem_of, ctx_tabela, destino_or_unknown.
  cbn [append String.eqb negb Ascii.eqb Bool.eqb].
  change (Str.contains d
            (("Falha identificada durante: processamento da tabela ")
             ++ d ++ newline ++ newline ++ "Erro: " ++ erro_principal_of erro_msg)
          = true).
  apply contains_app.
Qed.

(** The world a failing statement leaves once both handlers have run. *)
Lemma extrai_on_statement_failure (E : env) (w w1 w2 : world)
    (lines pre post : list string) (stmt : string)
    (d1 d2 : option string) (e : exn) :
  get_oracle_hook E = None -> get_mssql_hook E = None ->
  queries_file E = Some lines ->
  selects_of lines = (pre ++ stmt :: post)%list ->
  run_ok E pre None w = Some (d1, w1) ->
  process_statement E stmt d1 w1 = (Raise e, d2, w2) ->
  extrai_envia_sqlserver E w
  = (Raise e,
     add_trace (mail_events E (exn_text e) ctx_extracao)
       (add_trace (mail_events E (exn_text e) (ctx_tabela d2)) w2)).
Proof.
  intros Ho Hm Hq Hs Hok Hp.
  rewrite extrai_envia_sqlserver_eq. unfold setup_fault. rewrite Hq, Ho, Hm.
  unfold try_except. rewrite Hs.
  rewrite (for_selects_failure E pre post stmt None d1 d2 w w1 w2 e Hok Hp).
  apply notify_and_reraise_eq.
Qed.

(** C4, as the code has it.  When the gate lets the run through and the
    processing of a statement fails, the extraction raises and is marked
    failed, the copy and the flag reset are not executed, the statements
    after the failing one are never sent, the flag is still ['S'], and the
    operator is notified with the context of the table.  When the failure
    comes after the name was derived, that context and the mail carry the
    destination name of the failing statement; when it is a schema error, no
    table of SQL Server has changed since the statement began. *)
Theorem statement_failure_aborts_run (E : env) (w w1 w2 : world)
    (lines pre post : list string) (stmt : string)
    (d1 d2 : option string) (e : exn) :
  flag_read E w = Ret (Some (Some "S")) ->
  get_mssql_hook E = None ->
  queries_file E = Some lines ->
  selects_of lines = (pre ++ stmt :: post)%list ->
  run_ok E pre None w = Some (d1, w1) ->
  process_statement E stmt d1 w1 = (Raise e, d2, w2) ->
  let run := fst (run_dag E w) in
  let w' := snd (run_dag E w) in
  (st_extrai_envia run = Failed /\ st_copia_prog run = UpstreamFailed
   /\ st_ajusta_tb_config run = UpstreamFailed /\ st_fim_ok run = UpstreamFailed)
  /\ In (EvNotify (exn_text e) (ctx_tabela d2)) (trace w')
  /\ queries w' = (stmt :: rev pre ++ queries w)%list
  /\ tb_config w' = Some (Some "S")
  /\ tb_programacao w' = tb_programacao w
  /\ (forall df d,
        oracle_get_pandas_df E stmt = Ret df ->
        df_empty (lower_columns df) = false ->
        derive_destino stmt = Some d ->
        d2 = Some d
        /\ Str.contains d (mensagem_of (exn_text e) (ctx_tabela d2)) = true
        /\ (send_mail_fault E (mensagem_of (exn_text e) (ctx_tabela d2)) = None ->
            In (EvMail (mensagem_of (exn_text e) (ctx_tabela d2))) (trace w'))
        /\ (forall e', get_sqlserver_schema E d = Raise e' ->
              e = e' /\ mssql_tables w' = mssql_tables w1)).
Proof.
  intros Hflag Hm Hq Hs Hok Hp.
  destruct (flag_read_hook E w _ Hflag) as [Ho Hcfg].
  pose proof (extrai_on_statement_failure E w w1 w2 lines pre post stmt d1 d2 e
                Ho Hm Hq Hs Hok Hp) as Hex.
  unfold run_dag. rewrite checa_flag_eq, Hflag.
  cbn [followed_task String.eqb Ascii.eqb Bool.eqb branch_to run_after].
  rewrite Hex. cbn [run_after fst snd dummy_none_failed].
  cbn [st_extrai_envia st_copia_prog st_ajusta_tb_config st_fim_ok].
  destruct (run_ok_frame E pre None d1 w w1 Hok) as (Hc1 & Hp1 & _ & Hq1).
  pose proof (process_statement_frame E stmt d1 w1) as Hf.
  rewrite Hp in Hf. cbn [snd] in Hf. destruct Hf as (Hc2 & Hp2 & _ & Hq2).
  split; [repeat split|].
  split.
  { cbn [add_trace trace]. apply in_or_app. right. apply in_or_app. left.
    apply In_notify_mail_events. }
  split.
  { unfold queries. cbn [add_trace trace].
    rewrite !queries_in_app, !queries_mail_events. cbn [app].
    fold (queries w2). now rewrite Hq2, Hq1. }
  split; [cbn [add_trace tb_config]; congruence|].
  split; [cbn [add_trace tb_programacao]; congruence|].
  intros df d Hdf Hne Hd.
  assert (Hload : load_table E d (lower_columns df) (snd (log (EvOracleQuery stmt) w1))
                  = (Raise e, w2) /\ d2 = Some d).
  { unfold process_statement in Hp. rewrite Hdf, Hne, Hd in Hp.
    destruct (load_table E d (lower_columns df) _) as [r w0].
    injection Hp as -> <- ->. now split. }
  destruct Hload as [Hload ->].
  split; [reflexivity|].
  split; [apply mensagem_contains_table|].
  split.
  { intro Hmail. cbn [add_trace trace]. apply in_or_app. right.
    apply in_or_app. left. unfold mail_events. rewrite Ho, Hmail. now left. }
  intros e' He'.
  destruct (load_table_frame E d (lower_columns df)
              (snd (log (EvOracleQuery stmt) w1))) as (_ & _ & _ & _ & Hschema).
  rewrite (Hschema e' He') in Hload. injection Hload as <- <-.
  now split.
Qed.

Lemma statement_failure_aborts_run_witness :
  (st_extrai_envia (fst (run_dag sample_E sample_start)) = Failed
   /\ st_copia_prog (fst (run_dag sample_E sample_start)) = UpstreamFailed
   /\ st_ajusta_tb_config (fst (run_dag sample_E sample_start)) = UpstreamFailed
   /\ st_fim_ok (fst (run_dag sample_E sample_start)) = UpstreamFailed)
  /\ In (EvNotify (exn_text lote_not_found) (ctx_tabela (Some "dbo.lote")))
        (trace (snd (run_dag sample_E sample_start)))
  /\ queries (snd (run_dag sample_E sample_start))
     = (stmt_lote :: rev [stmt_estoques] ++ queries sample_start)%list
  /\ tb_config (snd (run_dag sample_E sample_start)) = Some (Some "S")
  /\ mssql_tables (snd (run_dag sample_E sample_start))
     = mssql_tables sample_after_estoques.
Proof.
  assert (H1 : flag_read sample_E sample_start = Ret (Some (Some "S")))
    by (vm_compute; reflexivity).
  assert (H2 : get_mssql_hook sample_E = None) by (vm_compute; reflexivity).
  assert (H3 : queries_file sample_E = Some sample_lines)
    by (vm_compute; reflexivity).
  assert (H4 : selects_of sample_lines
               = ([stmt_estoques] ++ stmt_lote :: [stmt_item])%list)
    by (vm_compute; reflexivity).
  assert (H5 : run_ok sample_E [stmt_estoques] None sample_start
               = Some (Some "dbo.estoque", sample_after_estoques))
    by (vm_compute; reflexivity).
  assert (H6 : process_statement sample_E stmt_lote (Some "dbo.estoque")
                 sample_after_estoques
               = (Raise lote_not_found, Some "dbo.lote", sample_after_lote))
    by (vm_compute; reflexivity).
  pose proof (statement_failure_aborts_run sample_E sample_start
                sample_after_estoques sample_after_lote sample_lines
                [stmt_estoques] [stmt_item] stmt_lote
                (Some "dbo.estoque") (Some "dbo.lote") lote_not_found
                H1 H2 H3 H4 H5 H6) as H.
  cbv zeta in H.
  destruct H as (Hrun & Hnotify & Hqueries & Hflag & _ & Hname).
  assert (G1 : oracle_get_pandas_df sample_E stmt_lote = Ret lote_result)
    by (vm_compute; reflexivity).
  assert (G2 : df_empty (lower_columns lote_result) = false)
    by (vm_compute; reflexivity).
  assert (G3 : derive_destino stmt_lote = Some "dbo.lote")
    by (vm_compute; reflexivity).
  assert (G4 : get_sqlserver_schema sample_E "dbo.lote" = Raise lote_not_found)
    by (vm_compute; reflexivity).
  destruct (Hname lote_result "dbo.lote" G1 G2 G3) as (_ & _ & _ & Hschema).
  destruct (Hschema lote_not_found G4) as [_ Htables].
  exact (conj Hrun (conj Hnotify (conj Hqueries (conj Hflag Htables)))).
Defined.

(** C4, counterexample.  The only statement of the file fails when it is
    sent to Oracle, before a destination name is derived: both
    notifications go out, and neither names the destination [dbo.item] of
    the failing statement. *)
Lemma failure_before_name_is_anonymous :
  let E := sample_env_of ["--select * from table(pkg_aps.fc_return_rs_item)"]
             None (Ret programacao_result) in
  let w' := snd (run_dag E sample_start) in
  derive_destino stmt_item = Some "dbo.item"
  /\ fst (fst (process_statement E stmt_item None sample_start))
     = Raise connection_lost
  /\ notified w'
     = [ (exn_text connection_lost, ctx_extracao);
         (exn_text connection_lost, "processamento da tabela desconhecida") ]
  /\ existsb (fun n => Str.contains "dbo.item" (snd n)) (notified w') = false.
Proof. vm_compute. repeat split. Qed.

(** The local [destino] outlives the statement that set it: a later
    statement that fails before its own name is derived is reported under
    the table of an earlier one. *)
Example earlier_table_named_for_later_failure :
  let E := sample_env_of
             [ "--SELECT * FROM TABLE(PKG_APS.FC_RETURN_RS_REL_ESTOQUES());";
               "--select * from table(pkg_aps.fc_return_rs_item)" ]
             None (Ret programacao_result) in
  notified (snd (extrai_envia_sqlserver E sample_start))
  = [ (exn_text connection_lost, ctx_extracao);
      (exn_text connection_lost, "processamento da tabela dbo.estoque") ].
Proof. vm_compute. reflexivity. Qed.

(* ================================================================= *)
(** * Further properties of the code *)

(** ** Text helpers: replace, normalized names, statements *)

(** Replacing a one-character text by nothing removes that character. *)
Lemma replace_char_filter (c : ascii) (s : string) :
  Str.replace (String c EmptyString) "" s
  = Str.filter (fun x => negb (Ascii.eqb c x)) s.
Proof.
  unfold Str.replace. induction s as [|x s IH]; [reflexivity|].
  cbn [Str.replace_from Str.startswith Str.filter String.length Nat.sub].
  destruct (Ascii.eqb c x); cbn [andb negb].
  - destruct s; exact IH.
  - now rewrite IH.
Qed.

Lemma has_char_filter_out (c : ascii) (s : string) :
  Str.has_char c (Str.filter (fun x => negb (Ascii.eqb c x)) s) = false.
Proof.
  induction s as [|x s IH]; [reflexivity|]. simpl.
  destruct (Ascii.eqb c x) eqn:He; simpl; [exact IH|].
  now rewrite Ascii.eqb_sym, He, IH.
Qed.

Lemma str_filter_app (p : ascii -> bool) (a b : string) :
  Str.filter p (a ++ b) = Str.filter p a ++ Str.filter p b.
Proof.
  induction a as [|x a IH]; [reflexivity|]. simpl.
  destruct (p x); simpl; now rewrite IH.
Qed.

Lemma str_filter_idem (p : ascii -> bool) (s : string) :
  Str.filter p (Str.filter p s) = Str.filter p s.
Proof.
  induction s as [|x s IH]; [reflexivity|]. simpl.
  destruct (p x) eqn:Hp; simpl; [now rewrite Hp, IH|exact IH].
Qed.

Lemma lower_char_idem (c : ascii) :
  Str.lower_char (Str.lower_char c) = Str.lower_char c.
Proof. destruct c as [[] [] [] [] [] [] [] []]; vm_compute; reflexivity. Qed.

Lemma lower_idem (s : string) : Str.lower (Str.lower s) = Str.lower s.
Proof.
  induction s as [|x s IH]; [reflexivity|]. simpl.
  now rewrite lower_char_idem, IH.
Qed.

Lemma lower_char_underscore (c : ascii) :
  Ascii.eqb "_"%char (Str.lower_char c) = Ascii.eqb "_"%char c.
Proof. destruct c as [[] [] [] [] [] [] [] []]; vm_compute; reflexivity. Qed.

Lemma lower_filter_underscore (s : string) :
  Str.lower (Str.filter (fun x => negb (Ascii.eqb "_"%char x)) s)
  = Str.filter (fun x => negb (Ascii.eqb "_"%char x)) (Str.lower s).
Proof.
  induction s as [|x s IH]; [reflexivity|].
  cbn [Str.lower Str.filter]. rewrite lower_char_underscore.
  destruct (Ascii.eqb "_"%char x); cbn [negb Str.lower]; now rewrite IH.
Qed.

Lemma normalized_filter (name : string) :
  normalized name
  = Str.filter (fun x => negb (Ascii.eqb "_"%char x)) (Str.lower name).
Proof. unfold normalized. apply replace_char_filter. Qed.

(** X1.  The normalized form of a column name forgets letter case and
    underscores, and nothing changes when it is normalized again: names
    that differ only in case or in underscores are matched alike. *)
Theorem normalized_forgets_case_and_underscores (a b : string) :
  normalized (Str.lower a) = normalized a
  /\ normalized (a ++ "_" ++ b) = normalized (a ++ b)
  /\ normalized (normalized a) = normalized a
  /\ Str.has_char "_"%char (normalized a) = false.
Proof.
  rewrite !normalized_filter. repeat split.
  - now rewrite lower_idem.
  - rewrite !lower_app, !str_filter_app. reflexivity.
  - rewrite lower_filter_underscore, lower_idem. apply str_filter_idem.
  - apply has_char_filter_out.
Qed.

(** X2.  No statement taken from the queries file contains a semicolon, and
    lines without the marker give no statement. *)
Theorem selects_of_no_semicolon (lines : list string) :
  (forall stmt, In stmt (selects_of lines) -> Str.has_char ";"%char stmt = false)
  /\ (List.length (selects_of lines) <= List.length lines)%nat
  /\ ((forall line, In line lines ->
         Str.startswith "--select" (Str.lower (Str.strip line)) = false) ->
      selects_of lines = []).
Proof.
  unfold selects_of. repeat split.
  - intros stmt H. apply in_map_iff in H. destruct H as (line & <- & _).
    rewrite replace_char_filter. apply has_char_filter_out.
  - rewrite length_map. apply filter_length_le.
  - intro H. induction lines as [|l ls IH]; [reflexivity|].
    cbn [List.filter]. rewrite (H l (or_introl eq_refl)). apply IH.
    intros line Hl. apply H. now right.
Qed.

Lemma selects_of_no_semicolon_witness :
  selects_of ["-- a comment"; "select 1;"] = [].
Proof.
  apply (selects_of_no_semicolon ["-- a comment"; "select 1;"]).
  intros line [<-|[<-|[]]]; reflexivity.
Defined.

(** ** The notification message is bounded *)

Lemma length_erro_principal (erro_msg : string) :
  (String.length (erro_principal_of erro_msg) <= 203)%nat.
Proof.
  unfold erro_principal_of.
  set (core := if Str.has_char colon erro_msg then _ else _).
  destruct (200 <? String.length core)%nat eqn:Hlen.
  - rewrite str_length_app. pose proof (length_take 200 core) as Ht.
    change (String.length "...") with 3%nat. lia.
  - apply Nat.ltb_ge in Hlen. lia.
Qed.

(** X4.  Whatever the error text, the part of the mail taken from it has at most
    203 characters, so the mail is never longer than its heading plus 203;
    an error text of at most 200 characters without a colon or surrounding
    blanks is carried whole. *)
Theorem mensagem_length_bounded (erro_msg contexto : string) :
  (String.length (mensagem_of erro_msg contexto)
   <= String.length (heading contexto) + 203)%nat
  /\ (Str.has_char colon erro_msg = false ->
      Str.strip erro_msg = erro_msg ->
      (String.length erro_msg <= 200)%nat ->
      mensagem_of erro_msg contexto = heading contexto ++ erro_msg).
Proof.
  assert (Hmsg : mensagem_of erro_msg contexto
                 = heading contexto ++ erro_principal_of erro_msg).
  { unfold mensagem_of, heading. destruct (negb (String.eqb contexto ""));
      [|reflexivity].
    now rewrite !str_app_assoc. }
  split.
  - rewrite Hmsg, str_length_app. pose proof (length_erro_principal erro_msg). lia.
  - intros Hc Hs Hl. rewrite Hmsg. f_equal. unfold erro_principal_of.
    rewrite Hc, Hs. apply Nat.ltb_ge in Hl. now rewrite Hl.
Qed.

Lemma mensagem_length_bounded_witness :
  mensagem_of "disk full" "" = "Erro: disk full".
Proof.
  apply (mensagem_length_bounded "disk full" ""); [reflexivity|reflexivity|].
  simpl. lia.
Defined.

(** ** get_sqlserver_schema *)

Lemma dict_set_entries {V} (P : string * V -> Prop) (d : dict V) (k : string) (v : V) :
  Forall P d -> P (k, v) -> (forall k' v', P (k', v') -> k' = k -> P (k', v)) ->
  Forall P (dict_set d k v).
Proof.
  intros Hd Hkv Hrep. induction d as [|[k0 v0] d IH]; simpl.
  - now constructor.
  - inversion Hd as [|? ? H0 Hd']; subst.
    destruct (String.eqb k0 k) eqn:He.
    + apply String.eqb_eq in He. constructor; [|assumption].
      now apply (Hrep k0 v0).
    + constructor; [assumption|]. now apply IH.
Qed.

Lemma dict_set_not_nil {V} (d : dict V) (k : string) (v : V) : dict_set d k v <> [].
Proof.
  destruct d as [|[k0 v0] d]; simpl; [discriminate|].
  destruct (String.eqb k0 k); discriminate.
Qed.

Lemma schema_of_rows_entries (rows : list (string * string)) :
  Forall (fun kv => Str.lower (fst kv) = fst kv /\ Str.lower (snd kv) = snd kv)
         (schema_of_rows rows).
Proof.
  unfold schema_of_rows.
  assert (H : forall d : dict string,
            Forall (fun kv => Str.lower (fst kv) = fst kv
                              /\ Str.lower (snd kv) = snd kv) d ->
            Forall (fun kv => Str.lower (fst kv) = fst kv
                              /\ Str.lower (snd kv) = snd kv)
              (fold_left (fun d r => dict_set d (Str.lower (fst r)) (Str.lower (snd r)))
                 rows d)).
  { induction rows as [|r rows IH]; intros d Hd; simpl; [exact Hd|].
    apply IH. apply dict_set_entries; [exact Hd| |].
    - simpl. now rewrite !lower_idem.
    - simpl. intros k' v' [Hk _] _. now rewrite lower_idem. }
  apply H. constructor.
Qed.

Lemma schema_fold_not_nil (rows : list (string * string)) (d : dict string) :
  d <> [] ->
  fold_left (fun d r => dict_set d (Str.lower (fst r)) (Str.lower (snd r)))
    rows d <> [].
Proof.
  revert d. induction rows as [|r rows IH]; intros d Hd; simpl; [exact Hd|].
  apply IH, dict_set_not_nil.
Qed.

Lemma schema_of_rows_not_nil (rows : list (string * string)) :
  rows <> [] -> schema_of_rows rows <> [].
Proof.
  unfold schema_of_rows. destruct rows as [|r rows]; [contradiction|].
  intros _. cbn [fold_left]. apply schema_fold_not_nil, dict_set_not_nil.
Qed.

(** X5.  A schema that [get_sqlserver_schema] returns is never empty, has no
    repeated column, and holds only lower-cased column names and types. *)
Theorem get_sqlserver_schema_shape (E : env) (full_name : string)
    (schema : dict string) :
  get_sqlserver_schema E full_name = Ret schema ->
  schema <> []
  /\ NoDup (dict_keys schema)
  /\ (forall col sql_type, In (col, sql_type) schema ->
        Str.lower col = col /\ Str.lower sql_type = sql_type).
Proof.
  unfold get_sqlserver_schema.
  destruct (if Str.has_char dot full_name then _ else _) as [sch name].
  destruct (mssql_get_records E sch name) as [rows|]; simpl; [|discriminate].
  destruct rows as [|r rows]; [discriminate|].
  intro H. injection H as <-. repeat split.
  - now apply schema_of_rows_not_nil.
  - apply schema_of_rows_nodup.
  - pose proof (schema_of_rows_entries (r :: rows)) as Hall.
    rewrite Forall_forall in Hall. apply (Hall _ H).
  - pose proof (schema_of_rows_entries (r :: rows)) as Hall.
    rewrite Forall_forall in Hall. apply (Hall _ H).
Qed.

Lemma get_sqlserver_schema_shape_witness :
  NoDup (dict_keys sample_schema).
Proof.
  apply (get_sqlserver_schema_shape sample_E "dbo.estoque" sample_schema).
  vm_compute. reflexivity.
Defined.

(** X6.  A table name without a dot is looked up in the schema [dbo]: it has a
    schema exactly when the name qualified with [dbo.] has, and then the
    same one; a table the catalog does not know raises a ValueError. *)
Theorem get_sqlserver_schema_default_dbo (E : env) (name : string) :
  Str.has_char dot name = false ->
  (forall schema,
     get_sqlserver_schema E name = Ret schema
     <-> get_sqlserver_schema E ("dbo." ++ name) = Ret schema)
  /\ (mssql_get_records E "dbo" name = Ret [] ->
      exists text, get_sqlserver_schema E name
                   = Raise {| exn_type := "ValueError"; exn_text := text |}).
Proof.
  intro Hdot. unfold get_sqlserver_schema. rewrite Hdot.
  cbn [append Str.has_char Str.before_first Str.after_first Ascii.eqb Bool.eqb
       orb dot].
  split.
  - intro schema.
    destruct (mssql_get_records E "dbo" name) as [rows|]; simpl;
      [|split; discriminate].
    destruct rows; [split; discriminate|tauto].
  - intros ->. simpl. eauto.
Qed.

Lemma get_sqlserver_schema_default_dbo_witness :
  get_sqlserver_schema sample_E "estoque" = Ret sample_schema.
Proof.
  apply (get_sqlserver_schema_default_dbo sample_E "estoque" eq_refl).
  vm_compute. reflexivity.
Defined.

(** ** Reconciliation: backfilled and colliding columns *)

Lemma labelled_nil (k : string) (df : dataframe) :
  mem k (columns df) = false -> labelled k df = [].
Proof.
  intro H. destruct (labelled k df) as [|s l] eqn:Hl; [reflexivity|].
  assert (Hin : In (k, s) (df_cols df)) by (apply labelled_In; rewrite Hl; now left).
  assert (In k (columns df)) by (apply in_map_iff; now exists (k, s)).
  apply mem_In in H0. congruence.
Qed.

Lemma labelled_mem (k : string) (df : dataframe) :
  labelled k df = [] -> mem k (columns df) = false.
Proof.
  intro H. destruct (mem k (columns df)) eqn:Hm; [|reflexivity].
  apply mem_In in Hm. apply in_map_iff in Hm. destruct Hm as ([l s] & Hl & Hin).
  simpl in Hl. subst l. apply labelled_In in Hin. rewrite H in Hin. contradiction.
Qed.

Lemma labelled_update_cols (f : series -> series) (c k : string) (df : dataframe) :
  labelled k (update_cols f c df)
  = if String.eqb c k then map f (labelled k df) else labelled k df.
Proof.
  unfold labelled, update_cols. simpl.
  induction (df_cols df) as [|[l s] cs IH]; simpl.
  - now destruct (String.eqb c k).
  - destruct (String.eqb l c) eqn:Hlc; simpl.
    + apply String.eqb_eq in Hlc. subst l.
      destruct (String.eqb c k) eqn:Hck; simpl; now rewrite IH.
    + destruct (String.eqb l k) eqn:Hlk; simpl; rewrite IH.
      * apply String.eqb_eq in Hlk. subst l.
        now rewrite String.eqb_sym, Hlc.
      * reflexivity.
Qed.

Lemma labelled_set_none_other (c k : string) (df : dataframe) :
  String.eqb c k = false -> labelled k (set_none c df) = labelled k df.
Proof.
  intro H. unfold set_none. destruct (mem c (columns df)).
  - now rewrite labelled_update_cols, H.
  - unfold labelled. simpl. rewrite filter_app, map_app. simpl.
    rewrite H. simpl. apply app_nil_r.
Qed.

Lemma labelled_set_none_same (k : string) (df : dataframe) :
  labelled k df = [] \/ labelled k df = [none_series (df_rows df)] ->
  labelled k (set_none k df) = [none_series (df_rows df)].
Proof.
  intros [H|H]; unfold set_none.
  - rewrite (labelled_mem k df H). unfold labelled in *. simpl.
    rewrite filter_app, map_app, H. simpl. now rewrite String.eqb_refl.
  - destruct (mem k (columns df)) eqn:Hm.
    + now rewrite labelled_update_cols, String.eqb_refl, H.
    + rewrite (labelled_nil k df Hm) in H. discriminate.
Qed.

Lemma df_rows_set_none (c : string) (df : dataframe) :
  df_rows (set_none c df) = df_rows df.
Proof. unfold set_none. now destruct (mem c (columns df)). Qed.

Lemma labelled_backfill (k : string) (ms : list string) (df : dataframe) :
  labelled k df = [] \/ labelled k df = [none_series (df_rows df)] ->
  labelled k (fold_left (fun d col => set_none col d) ms df)
  = if mem k ms then [none_series (df_rows df)] else labelled k df.
Proof.
  revert df. induction ms as [|c ms IH]; intros df H; [reflexivity|].
  cbn [fold_left]. unfold mem. cbn [existsb]. fold (mem k ms).
  destruct (String.eqb k c) eqn:Hkc.
  - apply String.eqb_eq in Hkc. subst c. cbn [orb].
    pose proof (labelled_set_none_same k df H) as Hs.
    rewrite IH by (right; now rewrite df_rows_set_none).
    rewrite df_rows_set_none, Hs. now destruct (mem k ms).
  - cbn [orb]. rewrite String.eqb_sym in Hkc.
    rewrite IH by (rewrite df_rows_set_none, labelled_set_none_other; assumption).
    now rewrite df_rows_set_none, labelled_set_none_other.
Qed.

Lemma labelled_backfill_other (k : string) (ms : list string) (df : dataframe) :
  mem k ms = false ->
  labelled k (fold_left (fun d col => set_none col d) ms df) = labelled k df.
Proof.
  revert df. induction ms as [|c ms IH]; intros df H; [reflexivity|].
  unfold mem in H. cbn [existsb] in H. apply orb_false_iff in H.
  destruct H as [Hkc Hms]. cbn [fold_left]. rewrite IH by exact Hms.
  apply labelled_set_none_other. now rewrite String.eqb_sym.
Qed.

Lemma df_rows_backfill (ms : list string) (df : dataframe) :
  df_rows (fold_left (fun d col => set_none col d) ms df) = df_rows df.
Proof.
  revert df. induction ms as [|c ms IH]; intro df; [reflexivity|].
  cbn [fold_left]. now rewrite IH, df_rows_set_none.
Qed.

Lemma labelled_df_drop (k : string) (extra : list string) (df : dataframe) :
  mem k extra = false -> labelled k (df_drop extra df) = labelled k df.
Proof.
  intro H. unfold labelled, df_drop. simpl. f_equal.
  induction (df_cols df) as [|[l s] cs IH]; [reflexivity|]. simpl.
  destruct (String.eqb l k) eqn:Hlk.
  - apply String.eqb_eq in Hlk. subst l. rewrite H. simpl.
    now rewrite String.eqb_refl, IH.
  - destruct (negb (mem l extra)); simpl; [now rewrite Hlk, IH|exact IH].
Qed.

Lemma df_rows_normalize (mapping : dict string) (df : dataframe)
    (schema_map : dict string) :
  df_rows (normalize_column_names_with mapping df schema_map) = df_rows df.
Proof.
  unfold normalize_column_names_with.
  now destruct (rename_map_of mapping schema_map (columns df)).
Qed.

Lemma reconcile_column_by_column (df : dataframe) (schema : dict string) :
  df_rows (reconcile df schema) = df_rows df
  /\ forall k, In k (dict_keys schema) ->
       labelled k (reconcile df schema)
       = if mem k (columns (normalize_column_names df schema))
         then labelled k (normalize_column_names df schema)
         else [none_series (df_rows df)].
Proof.
  unfold reconcile.
  set (df1 := normalize_column_names df schema).
  set (missing := List.filter (fun col => negb (mem col (columns df1)))
                              (dict_keys schema)).
  set (df2 := fold_left (fun d col => set_none col d) missing df1).
  set (extra := List.filter (fun col => negb (mem col (dict_keys schema)))
                            (columns df2)).
  assert (Hrows : df_rows df2 = df_rows df).
  { unfold df2. rewrite df_rows_backfill. apply df_rows_normalize. }
  split.
  - now destruct extra.
  - intros k Hk.
    assert (Hextra : mem k extra = false).
    { destruct (mem k extra) eqn:Hm; [|reflexivity].
      apply mem_In in Hm. apply filter_In in Hm. destruct Hm as [_ Hm].
      apply mem_In in Hk. rewrite Hk in Hm. discriminate. }
    assert (Hfinal : labelled k (match extra with [] => df2 | _ => df_drop extra df2 end)
                     = labelled k df2).
    { destruct extra; [reflexivity|]. now apply labelled_df_drop. }
    rewrite Hfinal. unfold df2.
    destruct (mem k (columns df1)) eqn:Hm.
    + apply labelled_backfill_other.
      destruct (mem k missing) eqn:Hmm; [|reflexivity].
      apply mem_In in Hmm. apply filter_In in Hmm. destruct Hmm as [_ Hmm].
      rewrite Hm in Hmm. discriminate.
    + rewrite labelled_backfill by (left; now apply labelled_nil).
      assert (Hmm : mem k missing = true).
      { apply mem_In. apply filter_In. split; [assumption|]. now rewrite Hm. }
      rewrite Hmm. unfold df1, normalize_column_names.
      now rewrite df_rows_normalize.
Qed.

(** X8.  What reconciliation does to each schema column: a column the renamed
    result has is kept as it is; a column it lacks is added with None in
    every row.  The number of rows does not change. *)
Theorem reconcile_keeps_or_backfills (df : dataframe) (schema : dict string) :
  df_rows (reconcile df schema) = df_rows df
  /\ forall k, In k (dict_keys schema) ->
       labelled k (reconcile df schema)
       = if mem k (columns (normalize_column_names df schema))
         then labelled k (normalize_column_names df schema)
         else [none_series (df_rows df)].
Proof. exact (reconcile_column_by_column df schema). Qed.

Lemma reconcile_keeps_or_backfills_witness :
  labelled "dt_mov" sample_reconciled = [none_series 2].
Proof.
  apply (reconcile_keeps_or_backfills (lower_columns estoques_result) sample_schema).
  vm_compute. tauto.
Defined.

(** X9.  Two incoming columns that end under the same schema name abort the
    table: the cast raises, and nothing is handed to the writer. *)
Theorem colliding_columns_abort_table (E : env) (df : dataframe)
    (schema : dict string) (k : string) :
  In k (dict_keys schema) ->
  (2 <= List.length (labelled k (normalize_column_names df schema)))%nat ->
  exists e, prepare_table E df schema = Raise e.
Proof.
  intros Hk Hlen.
  destruct (reconcile_column_by_column df schema) as [_ Hlab].
  specialize (Hlab k Hk).
  destruct (mem k (columns (normalize_column_names df schema))) eqn:Hm.
  - unfold prepare_table.
    destruct (cast_df_to_schema E (reconcile df schema) schema) as [df1|e] eqn:Hc;
      simpl; [|eauto]. exfalso.
    apply cast_df_to_schema_columns in Hc. destruct Hc as [_ Hnd].
    rewrite <- Hlab in Hlen. rewrite labelled_length in Hlen.
    assert (Hone : (List.length (List.filter (fun l => String.eqb l k)
                                   (columns (reconcile df schema))) <= 1)%nat).
    { clear - Hnd. induction (columns (reconcile df schema)) as [|a l IH];
        [simpl; lia|].
      inversion Hnd as [|? ? Hna Hnd']; subst. simpl.
      destruct (String.eqb a k) eqn:Hak; [|now apply IH].
      apply String.eqb_eq in Hak. subst a. simpl.
      assert (List.filter (fun l0 => String.eqb l0 k) l = []) as ->.
      { clear - Hna. induction l as [|b l IH]; [reflexivity|]. simpl.
        destruct (String.eqb b k) eqn:Hb.
        - apply String.eqb_eq in Hb. subst. exfalso. apply Hna. now left.
        - apply IH. intro H. apply Hna. now right. }
      simpl. lia. }
    lia.
  - rewrite (labelled_nil _ _ Hm) in Hlen. simpl in Hlen. lia.
Qed.

Lemma colliding_columns_abort_table_witness :
  exists e,
    prepare_table sample_E
      {| df_rows := 1;
         df_cols := [ object_column "cod_item" [PStr "A1"];
                      object_column "cod__item" [PStr "A2"] ] |}
      sample_schema = Raise e.
Proof.
  apply (colliding_columns_abort_table sample_E _ sample_schema "cod_item").
  - vm_compute. tauto.
  - vm_compute. lia.
Defined.

(** ** The cast: shape and cells *)

Lemma mapM_length {A B} (f : A -> outcome B) (l : list A) (l' : list B) :
  mapM f l = Ret l' -> List.length l' = List.length l.
Proof.
  revert l'. induction l as [|x l IH]; intros l' H; simpl in H.
  - now injection H as <-.
  - destruct (f x); simpl in H; [|discriminate].
    destruct (mapM f l) as [bs|]; simpl in H; [|discriminate].
    injection H as <-. simpl. now rewrite (IH bs eq_refl).
Qed.

Lemma null_pass_length (s : series) :
  List.length (s_values (null_pass s)) = List.length (s_values s).
Proof.
  unfold null_pass, where_notnull_none. destruct (_ || _); [|reflexivity].
  destruct (s_dtype s); try reflexivity. apply length_map.
Qed.

Lemma series_of_objects_length (vs : list pyval) :
  List.length (s_values (series_of_objects vs)) = List.length vs.
Proof.
  unfold series_of_objects. destruct (_ && _); [apply length_map|reflexivity].
Qed.

Lemma apply_or_none_length (g : datetime -> pyval) (s : series) :
  List.length (s_values (apply_or_none g s)) = List.length (s_values s).
Proof.
  unfold apply_or_none. destruct (s_values s) as [|v0 vs] eqn:Hv.
  - now rewrite Hv.
  - rewrite series_of_objects_length. apply length_map.
Qed.

Lemma maybe_convert_numeric_length (E : env) (vs : list pyval) (s2 : series) :
  maybe_convert_numeric E vs = Ret s2 ->
  List.length (s_values s2) = List.length vs.
Proof.
  unfold maybe_convert_numeric. destruct vs as [|v0 vs0].
  - intro H. now injection H as <-.
  - remember (v0 :: vs0) as vs eqn:Hvs. clear Hvs.
    destruct (is_int v0 && _).
    + intro H. injection H as <-. apply length_map.
    + destruct (existsb _ vs); [discriminate|]. cbv zeta.
      destruct (existsb uint_reading _ && _).
      * intro H. now injection H as <-.
      * destruct (existsb float_reading _ || _).
        -- intro H. injection H as <-. cbn [s_values]. now rewrite !length_map.
        -- destruct (existsb int_reading _); intro H; injection H as <-;
             cbn [s_values]; now rewrite !length_map.
Qed.

Lemma to_numeric_length (E : env) (s s2 : series) :
  to_numeric E s = Ret s2 ->
  List.length (s_values s2) = List.length (s_values s).
Proof.
  unfold to_numeric.
  destruct (s_dtype s); try (intro H; injection H as <-; reflexivity).
  - apply maybe_convert_numeric_length.
  - intro H. injection H as <-. apply length_map.
Qed.

Lemma cast_series_length (E : env) (tag : type_tag) (s s1 : series) :
  cast_series E tag s = Ret s1 ->
  List.length (s_values s1) = List.length (s_values s).
Proof.
  destruct tag; cbn [cast_series]; intro H; try (injection H as <-).
  - rewrite apply_or_none_length. apply length_map.
  - rewrite apply_or_none_length. apply length_map.
  - rewrite apply_or_none_length. apply length_map.
  - destruct (to_numeric E s) as [s2|] eqn:Hn; cbn [obind] in H; [|discriminate].
    unfold astype_int64 in H.
    destruct (mapM _ _) as [vs|] eqn:Hm; cbn [obind] in H; [|discriminate].
    injection H as <-. cbn [s_values]. rewrite (mapM_length _ _ _ Hm).
    unfold fillna. cbn [s_values]. rewrite length_map.
    now apply (to_numeric_length E).
  - now apply (to_numeric_length E).
  - unfold astype_bool, fillna. cbn [s_values]. now rewrite !length_map.
  - reflexivity.
Qed.

Lemma df_rows_cast (E : env) (df df' : dataframe) (schema_map : dict string) :
  cast_df_to_schema E df schema_map = Ret df' -> df_rows df' = df_rows df.
Proof.
  unfold cast_df_to_schema.
  destruct (foldM (cast_column E) schema_map df) as [df1|] eqn:H1; simpl;
    [|discriminate].
  intro H2.
  assert (Hr1 : df_rows df1 = df_rows df).
  { apply (foldM_invariant (cast_column E)
             (fun d => df_rows d = df_rows df) schema_map df df1); auto.
    intros x [col ty] x' Hxy Hx. rewrite <- Hx. unfold cast_column in Hxy.
    destruct (negb (mem col (columns x))); [now injection Hxy as <-|].
    unfold update_series in Hxy.
    repeat match type of Hxy with
    | (if ?b then _ else _) = _ => destruct b
    end;
    try (injection Hxy as <-; reflexivity);
    (destruct (labelled col x) as [|s0 [|s2 l]]; try discriminate;
     match type of Hxy with
     | obind ?o _ = _ => destruct o; simpl in Hxy; [|discriminate]
     end; now injection Hxy as <-). }
  rewrite <- Hr1.
  apply (foldM_invariant normalize_nulls
           (fun d => df_rows d = df_rows df1) (columns df1) df1 df'); auto.
  intros x col x' Hxy Hx. rewrite <- Hx. unfold normalize_nulls in Hxy.
  destruct (labelled col x) as [|s0 [|s2 l]]; try discriminate.
  destruct (_ || _); now injection Hxy as <-.
Qed.

(** X10.  The cast keeps the shape of the table: the same number of rows, the
    same labels in the same order, and in every column as many values as
    before. *)
Theorem cast_keeps_shape (E : env) (df df' : dataframe) (schema_map : dict string) :
  NoDup (dict_keys schema_map) ->
  cast_df_to_schema E df schema_map = Ret df' ->
  df_rows df' = df_rows df
  /\ columns df' = columns df
  /\ forall col s', In (col, s') (df_cols df') ->
       exists s, In (col, s) (df_cols df)
                 /\ List.length (s_values s') = List.length (s_values s).
Proof.
  intros Hnd H. split; [now apply (df_rows_cast E df df' schema_map)|].
  split; [now apply (cast_df_to_schema_columns E df df' schema_map)|].
  intros col s' Hin.
  destruct (cast_df_to_schema_series E df df' schema_map Hnd H col s' Hin)
    as (s0 & s1 & Hin0 & Hcast & ->).
  exists s0. split; [assumption|]. rewrite null_pass_length.
  destruct (dict_get schema_map col) as [ty|].
  - now apply (cast_series_length E (tag_of ty)).
  - now subst.
Qed.

Lemma cast_keeps_shape_witness :
  columns sample_coerced = columns sample_reconciled.
Proof.
  apply (cast_keeps_shape sample_E sample_reconciled sample_coerced sample_schema).
  - apply schema_of_rows_nodup.
  - vm_compute. reflexivity.
Defined.






(** ** The writer *)

Lemma safe_value_clean (v : pyval) :
  (safe_value v = PNone \/ isna (safe_value v) = false)
  /\ forall d, safe_value v <> PTimestamp d.
Proof.
  unfold safe_value. destruct (isna v) eqn:Hn.
  - split; [now left|discriminate].
  - destruct v; simpl in *; split; try (now right); try discriminate; auto.
Qed.

(** X12.  The rows handed to [insert_rows]: one per row of the table, one cell per
    target field, and no cell is nan, NaT or a pandas Timestamp. *)
Theorem safe_rows_shape (df : dataframe) (target_fields : list string) :
  List.length (safe_rows df target_fields) = df_rows df
  /\ forall r, In r (safe_rows df target_fields) ->
       List.length r = List.length target_fields
       /\ forall v, In v r ->
            (v = PNone \/ isna v = false) /\ forall d, v <> PTimestamp d.
Proof.
  unfold safe_rows. split.
  - now rewrite length_map, length_seq.
  - intros r Hr. apply in_map_iff in Hr. destruct Hr as (i & <- & _).
    split; [apply length_map|].
    intros v Hv. apply in_map_iff in Hv. destruct Hv as (field & <- & _).
    destruct (labelled field df) as [|s l].
    + split; [now left|discriminate].
    + apply safe_value_clean.
Qed.

Lemma safe_rows_shape_witness :
  List.length [PStr "A1"; PInt 10; PBool true; PNone; PNone] = 5%nat.
Proof.
  destruct (safe_rows_shape sample_coerced (columns sample_coerced)) as [_ H].
  apply (H [PStr "A1"; PInt 10; PBool true; PNone; PNone]).
  vm_compute. tauto.
Defined.

(** X13.  Loading a table replaces its contents: after a load that ends well the
    destination holds exactly the rows of the prepared table, whatever it
    held before, every other table is as it was, and loading the same
    result again changes nothing. *)
Theorem load_table_replaces (E : env) (destino : string) (df : dataframe)
    (w : world) :
  fst (load_table E destino df w) = Ret tt ->
  let w' := snd (load_table E destino df w) in
  (exists schema df',
     get_sqlserver_schema E destino = Ret schema
     /\ prepare_table E df schema = Ret df'
     /\ mssql_tables w' destino = safe_rows df' (dict_keys schema))
  /\ (forall t, t <> destino -> mssql_tables w' t = mssql_tables w t)
  /\ fst (load_table E destino df w') = Ret tt
  /\ (forall t, mssql_tables (snd (load_table E destino df w')) t
                = mssql_tables w' t).
Proof.
  unfold load_table, bind, lift, safe_insert_rows, bind, set_mssql_table,
    get_world, check, log, insert_into.
  destruct (get_sqlserver_schema E destino) as [schema|] eqn:Hs; [|discriminate].
  destruct (prepare_table E df schema) as [df'|] eqn:Hp; [|discriminate].
  destruct (mssql_truncate_fault E destino); [discriminate|].
  cbn. rewrite String.eqb_refl.
  destruct (mssql_insert_fault E destino) as [[n e]|]; cbn; [discriminate|].
  intros _. rewrite !String.eqb_refl. cbn. repeat split.
  - exists schema, df'. now repeat split.
  - intros t Ht. apply String.eqb_neq in Ht. now rewrite Ht.
  - intro t. now destruct (String.eqb t destino).
Qed.

Lemma load_table_replaces_witness :
  mssql_tables
    (snd (load_table sample_E "dbo.estoque" (lower_columns estoques_result)
            sample_start)) "dbo.lote"
  = [[PStr "stale"]].
Proof.
  destruct (load_table_replaces sample_E "dbo.estoque"
              (lower_columns estoques_result) sample_start) as (_ & H & _).
  - vm_compute. reflexivity.
  - rewrite (H "dbo.lote"); [reflexivity|discriminate].
Defined.

(** ** The extraction loop *)

Lemma setup_fault_none (E : env) :
  setup_fault E = None ->
  exists lines, queries_file E = Some lines
                /\ get_oracle_hook E = None /\ get_mssql_hook E = None.
Proof.
  unfold setup_fault. destruct (queries_file E) as [lines|]; [|discriminate].
  destruct (get_oracle_hook E); [discriminate|]. intro H. eauto.
Qed.

(** X14.  An extraction that ends well has sent every statement of the queries
    file to Oracle exactly once, in file order, has notified nobody, and has
    left the flag and the schedule table alone. *)
Theorem extraction_success_sends_all (E : env) (w : world) (lines : list string) :
  queries_file E = Some lines ->
  fst (extrai_envia_sqlserver E w) = Ret tt ->
  let w' := snd (extrai_envia_sqlserver E w) in
  queries w' = (rev (selects_of lines) ++ queries w)%list
  /\ notified w' = notified w
  /\ tb_config w' = tb_config w
  /\ tb_programacao w' = tb_programacao w.
Proof.
  intros Hq. rewrite extrai_envia_sqlserver_eq.
  destruct (setup_fault E) as [e|] eqn:Hsetup.
  - rewrite notify_and_reraise_eq. discriminate.
  - rewrite Hq. unfold try_except.
    destruct (for_selects_outcome E (selects_of lines) None w)
      as [(d1 & w1 & Hok & Hrun)|
          (pre & stmt & post & d1 & w1 & e & d2 & w2 & Hs & Hok & Hp & Hrun)];
      rewrite Hrun.
    + intros _. cbn [snd].
      destruct (run_ok_frame E _ _ _ _ _ Hok) as (A & B & C & D). auto.
    + rewrite notify_and_reraise_eq. discriminate.
Qed.

Lemma extraction_success_sends_all_witness :
  let E := sample_env_of
             ["--SELECT * FROM TABLE(PKG_APS.FC_RETURN_RS_REL_ESTOQUES());"]
             None (Ret programacao_result) in
  queries (snd (extrai_envia_sqlserver E sample_start)) = [stmt_estoques].
Proof.
  intro E.
  destruct (extraction_success_sends_all E sample_start
              ["--SELECT * FROM TABLE(PKG_APS.FC_RETURN_RS_REL_ESTOQUES());"])
    as (H & _).
  - reflexivity.
  - vm_compute. reflexivity.
  - rewrite H. vm_compute. reflexivity.
Defined.

Lemma add_trace_log (evs : list event) (ev : event) (w : world) :
  add_trace evs (snd (log ev w)) = add_trace (evs ++ [ev]) w.
Proof.
  unfold add_trace, log. simpl. f_equal. now rewrite <- app_assoc.
Qed.

Lemma for_selects_empty (E : env) (selects : list string) (d : option string)
    (w : world) :
  (forall stmt, In stmt selects ->
     exists df, oracle_get_pandas_df E stmt = Ret df
                /\ df_empty (lower_columns df) = true) ->
  for_selects E selects d w
  = (Ret tt, add_trace (map EvOracleQuery (rev selects)) w).
Proof.
  revert w. induction selects as [|stmt rest IH]; intros w H.
  - simpl. unfold ret, add_trace. now destruct w.
  - cbn [for_selects]. unfold process_statement.
    destruct (H stmt (or_introl eq_refl)) as (df & Hdf & He).
    rewrite Hdf, He. rewrite IH by (intros s Hs; apply H; now right).
    f_equal. rewrite add_trace_log. f_equal. simpl. now rewrite map_app.
Qed.

(** X15.  Statements whose results are all empty are skipped one after the
    other: the extraction ends well having only sent the statements; no
    schema is read, no table is touched, nobody is notified. *)
Theorem empty_results_touch_nothing (E : env) (w : world) (lines : list string) :
  queries_file E = Some lines ->
  get_oracle_hook E = None -> get_mssql_hook E = None ->
  (forall stmt, In stmt (selects_of lines) ->
     exists df, oracle_get_pandas_df E stmt = Ret df
                /\ df_empty (lower_columns df) = true) ->
  extrai_envia_sqlserver E w
  = (Ret tt, add_trace (map EvOracleQuery (rev (selects_of lines))) w).
Proof.
  intros Hq Ho Hm Hempty. rewrite extrai_envia_sqlserver_eq.
  unfold setup_fault. rewrite Hq, Ho, Hm. unfold try_except.
  now rewrite (for_selects_empty E _ None w Hempty).
Qed.

Lemma empty_results_touch_nothing_witness :
  fst (extrai_envia_sqlserver
         (answering_env ["--select * from table(pkg.fc_return_rs_lote);"]
            (fun _ => Ret empty_programacao)) sample_start)
  = Ret tt.
Proof.
  rewrite (empty_results_touch_nothing _ sample_start
             ["--select * from table(pkg.fc_return_rs_lote);"]);
    try reflexivity.
  intros stmt _. exists empty_programacao. split; reflexivity.
Defined.

(** ** Statements without a table clause; the shape of derived names *)

Lemma prefix_ci_needs_paren (s : string) :
  Str.has_char "("%char s = false -> Str.prefix_ci "table(" s = false.
Proof.
  intro H. destruct (Str.prefix_ci "table(" s) eqn:Hm; [exfalso|reflexivity].
  unfold Str.prefix_ci in Hm.
  pose proof (startswith_get _ _ Hm 5 "("%char eq_refl) as Hg.
  rewrite get_lower in Hg.
  destruct (String.get 5 s) as [x|] eqn:Hx; [|discriminate].
  simpl in Hg. injection Hg as Hg. apply lower_char_open_paren in Hg. subst x.
  exact (has_char_get _ _ 5 H Hx).
Qed.

Lemma re_search_table_needs_paren (s : string) :
  Str.has_char "("%char s = false -> re_search_table s = None.
Proof.
  induction s as [|c s IH]; intro H.
  - reflexivity.
  - cbn [re_search_table]. rewrite (prefix_ci_needs_paren _ H).
    apply IH. simpl in H. now apply orb_false_iff in H.
Qed.

(** X16.  A statement without an opening parenthesis has no [table(...)] clause:
    once its result has come back non-empty, processing it fails with the
    AttributeError of the failed search, before any name is derived, any
    schema read or any table touched. *)
Theorem statement_without_table_clause (E : env) (stmt : string)
    (d : option string) (w : world) (df : dataframe) :
  Str.has_char "("%char stmt = false ->
  oracle_get_pandas_df E stmt = Ret df ->
  df_empty (lower_columns df) = false ->
  derive_destino stmt = None
  /\ process_statement E stmt d w
     = (Raise no_group, d, add_trace [EvOracleQuery stmt] w).
Proof.
  intros Hp Hdf He.
  assert (Hd : derive_destino stmt = None).
  { unfold derive_destino. now rewrite re_search_table_needs_paren. }
  split; [exact Hd|].
  unfold process_statement. now rewrite Hdf, He, Hd.
Qed.

Lemma statement_without_table_clause_witness :
  derive_destino "select 1 from dual" = None.
Proof.
  apply (statement_without_table_clause
           (answering_env [] (fun _ => Ret lote_result)) "select 1 from dual"
           None sample_start lote_result); reflexivity.
Defined.

Lemma name_char_lower (c : ascii) :
  in_paren_semi_space c = false -> name_char (Str.lower_char c) = true.
Proof.
  destruct c as [[] [] [] [] [] [] [] []]; vm_compute; intro H;
    solve [ reflexivity | discriminate H ].
Qed.

Lemma name_chars_lower_filter (s : string) :
  Str.forallb name_char
    (Str.lower (Str.filter (fun c => negb (in_paren_semi_space c)) s)) = true.
Proof.
  induction s as [|c s IH]; [reflexivity|]. cbn [Str.filter].
  destruct (in_paren_semi_space c) eqn:Hc; cbn [negb]; [exact IH|].
  cbn [Str.lower Str.forallb]. now rewrite (name_char_lower c Hc), IH.
Qed.

Lemma str_forallb_app (p : ascii -> bool) (a b : string) :
  Str.forallb p (a ++ b) = Str.forallb p a && Str.forallb p b.
Proof.
  induction a as [|c a IH]; [reflexivity|]. simpl.
  now rewrite IH, andb_assoc.
Qed.

Lemma forallb_replace_from (p : ascii -> bool) (old new s : string) (k : nat) :
  Str.forallb p new = true -> Str.forallb p s = true ->
  Str.forallb p (Str.replace_from old new k s) = true.
Proof.
  intros Hnew. revert k. induction s as [|c s IH]; intros k Hs; [reflexivity|].
  cbn [Str.forallb] in Hs. apply andb_true_iff in Hs. destruct Hs as [Hc Hs].
  cbn [Str.replace_from]. destruct k as [|k]; [|now apply IH].
  destruct (Str.startswith old (String c s)).
  - rewrite str_forallb_app, Hnew. now apply IH.
  - cbn [Str.forallb]. rewrite Hc. now apply IH.
Qed.

(** X17.  Every destination name the driver derives is qualified with [dbo.] and
    holds no parenthesis, semicolon, white space or upper-case letter. *)
Theorem derive_destino_shape (stmt destino : string) :
  derive_destino stmt = Some destino ->
  Str.startswith "dbo." destino = true
  /\ Str.forallb name_char destino = true.
Proof.
  unfold derive_destino. destruct (re_search_table stmt) as [func_full|];
    [|discriminate].
  simpl. intro H. injection H as <-. unfold destino_of_func.
  set (body := Str.lower (Str.filter (fun c => negb (in_paren_semi_space c))
                            (sub_fc_return_rs (Str.after_last "."%char func_full)))).
  assert (Hbody : Str.forallb name_char ("dbo." ++ body) = true).
  { rewrite str_forallb_app. unfold body. now rewrite name_chars_lower_filter. }
  destruct (Str.contains "estoques" ("dbo." ++ body)).
  - split.
    + reflexivity.
    + apply forallb_replace_from; [reflexivity|exact Hbody].
  - split; [reflexivity|exact Hbody].
Qed.

Lemma derive_destino_shape_witness :
  Str.startswith "dbo." "dbo.lote" = true.
Proof.
  apply (derive_destino_shape "select * from table(PKG.FC_RETURN_RS_LOTE( ))"
           "dbo.lote").
  reflexivity.
Defined.

(** ** The flag reset and the end of a run *)

Lemma ajusta_outcomes (E : env) (w : world) :
  let r := fst (ajusta_roda_integraca_aps E w) in
  let w' := snd (ajusta_roda_integraca_aps E w) in
  (forall result, r = Ret result ->
     result = Some (Some "N") /\ tb_config w' = Some (Some "N")
     /\ tb_config w <> None /\ notified w' = notified w)
  /\ (get_oracle_hook E = None -> flag_update_fault E = None ->
      flag_verify_fault E = None ->
      match tb_config w with
      | Some _ => r = Ret (Some (Some "N"))
      | None => r = Raise falha_verificacao /\ tb_config w' = None
                /\ notified w' = (exn_text falha_verificacao, ctx_ajusta)
                                 :: notified w
      end).
Proof.
  unfold ajusta_roda_integraca_aps, ajusta_roda_integraca_aps_body, try_except, bind, check, update_flag,
    select_flag, bind, get_world, check, set_config, ret, raise.
  destruct (get_oracle_hook E) as [e|] eqn:Ho; cbn -[enviar_email_erro].
  - rewrite enviar_email_erro_eq. cbn. split; [discriminate|discriminate].
  - destruct (flag_update_fault E) as [e|] eqn:Hu; cbn -[enviar_email_erro].
    + rewrite enviar_email_erro_eq. cbn. split; discriminate.
    + destruct (tb_config w) as [v|] eqn:Hc; cbn -[enviar_email_erro].
      * destruct (flag_verify_fault E) as [e|] eqn:Hv; cbn -[enviar_email_erro].
        -- rewrite enviar_email_erro_eq. cbn. split; discriminate.
        -- split; [|reflexivity]. intros result H. injection H as <-.
           repeat split. discriminate.
      * destruct (flag_verify_fault E) as [e|] eqn:Hv; cbn -[enviar_email_erro].
        -- rewrite enviar_email_erro_eq. cbn. split; discriminate.
        -- rewrite Hc. cbn -[enviar_email_erro]. rewrite enviar_email_erro_eq.
           split; [discriminate|]. intros _ _ _. repeat split.
           ++ exact Hc.
           ++ apply notified_add_mail.
Qed.

(** X18.  The flag reset ends well only when the flag row exists and reads ['N']
    afterwards.  Without faults it ends well whenever the row exists; when
    the row is missing, the update changes nothing, the verification fails
    and the operator is notified once. *)
Theorem ajusta_resets_or_reports (E : env) (w : world) :
  let r := fst (ajusta_roda_integraca_aps E w) in
  let w' := snd (ajusta_roda_integraca_aps E w) in
  (forall result, r = Ret result ->
     result = Some (Some "N") /\ tb_config w' = Some (Some "N")
     /\ tb_config w <> None /\ notified w' = notified w)
  /\ (get_oracle_hook E = None -> flag_update_fault E = None ->
      flag_verify_fault E = None ->
      match tb_config w with
      | Some _ => r = Ret (Some (Some "N"))
      | None => r = Raise falha_verificacao /\ tb_config w' = None
                /\ notified w' = (exn_text falha_verificacao, ctx_ajusta)
                                 :: notified w
      end).
Proof. exact (ajusta_outcomes E w). Qed.

Lemma ajusta_resets_or_reports_witness :
  fst (ajusta_roda_integraca_aps sample_E (sample_world None))
  = Raise falha_verificacao.
Proof.
  destruct (ajusta_resets_or_reports sample_E (sample_world None)) as [_ H].
  apply H; reflexivity.
Defined.

Lemma copia_keeps_flag (E : env) (w : world) :
  tb_config (snd (copia_programacao E w)) = tb_config w.
Proof.
  unfold copia_programacao, copia_programacao_body, try_except, bind, check, lift, set_programacao,
    get_world, ret, raise.
  destruct (get_mssql_hook E); cbn -[enviar_email_erro];
    [now rewrite enviar_email_erro_eq|].
  destruct (get_oracle_hook E); cbn -[enviar_email_erro];
    [now rewrite enviar_email_erro_eq|].
  destruct (mssql_programacao E) as [df|]; cbn -[enviar_email_erro];
    [|now rewrite enviar_email_erro_eq].
  destruct (df_empty df); cbn -[enviar_email_erro]; [reflexivity|].
  destruct (oracle_truncate_fault E); cbn -[enviar_email_erro];
    [now rewrite enviar_email_erro_eq|].
  unfold insert_into.
  destruct (oracle_insert_fault E) as [[n e]|]; cbn -[enviar_email_erro];
    [now rewrite enviar_email_erro_eq|reflexivity].
Qed.

Lemma extrai_keeps_flag (E : env) (w : world) :
  tb_config (snd (extrai_envia_sqlserver E w)) = tb_config w.
Proof.
  rewrite extrai_envia_sqlserver_eq.
  destruct (setup_fault E) as [e|].
  - now rewrite notify_and_reraise_eq.
  - destruct (queries_file E) as [lines|]; [|reflexivity].
    unfold try_except.
    destruct (for_selects_outcome E (selects_of lines) None w)
      as [(d1 & w1 & Hok & Hrun)|
          (pre & stmt & post & d1 & w1 & e & d2 & w2 & Hs & Hok & Hp & Hrun)];
      rewrite Hrun.
    + now destruct (run_ok_frame E _ _ _ _ _ Hok) as (A & _).
    + rewrite notify_and_reraise_eq. cbn [snd add_trace tb_config].
      destruct (run_ok_frame E _ _ _ _ _ Hok) as (A & _).
      pose proof (process_statement_frame E stmt d1 w1) as Hf.
      rewrite Hp in Hf. cbn [snd] in Hf. destruct Hf as (A' & _). congruence.
Qed.

(** X19.  How a run ends.  The closing task succeeds exactly when the gate turned
    the run away or when extraction, copy and flag reset all succeeded.  The
    flag is ['N'] after a flag reset that succeeded, and is what it was
    whenever the flag reset was not executed: a run that fails earlier
    leaves the flag for the next run. *)
Theorem run_ends_done_or_keeps_flag (E : env) (w : world) :
  let run := fst (run_dag E w) in
  let w' := snd (run_dag E w) in
  (st_fim_ok run = Success <->
   skipped_no_op run
   \/ (st_extrai_envia run = Success /\ st_copia_prog run = Success
       /\ st_ajusta_tb_config run = Success))
  /\ (st_ajusta_tb_config run = Success -> tb_config w' = Some (Some "N"))
  /\ (st_ajusta_tb_config run = Skipped
      \/ st_ajusta_tb_config run = UpstreamFailed ->
      tb_config w' = tb_config w).
Proof.
  unfold run_dag. rewrite checa_flag_eq.
  destruct (flag_read E w) as [flag|e] eqn:Hf.
  - destruct (followed_task_cases flag) as [[-> Ht]|[Hne Ht]]; rewrite Ht.
    + cbn [branch_to String.eqb Ascii.eqb Bool.eqb run_after].
      pose proof (extrai_keeps_flag E w) as He.
      destruct (extrai_envia_sqlserver E w) as [[u|e1] w2]; cbn [snd] in He;
        cbn [run_after].
      * pose proof (copia_keeps_flag E w2) as Hc.
        destruct (copia_programacao E w2) as [[u2|e2] w3]; cbn [snd] in Hc;
          cbn [run_after].
        -- pose proof (ajusta_outcomes E w3) as [Ha _].
           destruct (ajusta_roda_integraca_aps E w3) as [[r|e3] w4];
             cbn in Ha |- *; unfold skipped_no_op; cbn.
           ++ destruct (Ha r eq_refl) as (_ & Hn & _).
              repeat split; auto; intros; try discriminate;
                intuition discriminate.
           ++ repeat split; intros; try discriminate; intuition discriminate.
        -- cbn. unfold skipped_no_op. cbn.
           repeat split; intros; try discriminate; try congruence;
             intuition discriminate.
      * cbn. unfold skipped_no_op. cbn.
        repeat split; intros; try discriminate; try congruence;
          intuition discriminate.
    + cbn. unfold skipped_no_op. cbn.
      repeat split; intros; try discriminate; auto.
      left. repeat split.
  - cbn. unfold skipped_no_op. cbn.
    repeat split; intros; try discriminate; intuition discriminate.
Qed.

Lemma run_ends_done_or_keeps_flag_witness :
  tb_config (snd (run_dag sample_E sample_start)) = Some (Some "S").
Proof.
  destruct (run_ends_done_or_keeps_flag sample_E sample_start) as (_ & _ & H).
  apply H. right. vm_compute. reflexivity.
Defined.

(** ** Renaming leaves the data alone *)

Lemma rename_map_of_exact (mapping schema_map : dict string) (cols : list string) :
  (forall c, In c cols -> In c (dict_keys schema_map)) ->
  rename_map_of mapping schema_map cols = [].
Proof.
  intro H. unfold rename_map_of.
  set (ns := normalized_schema_of (dict_keys schema_map)).
  induction cols as [|c cols IH]; [reflexivity|].
  cbn [fold_left]. unfold rename_step at 2.
  assert (Hc : dict_mem c schema_map = true).
  { rewrite dict_mem_keys. apply mem_In. apply H. now left. }
  rewrite Hc. apply IH. intros x Hx. apply H. now right.
Qed.

(** X7.  Renaming changes labels only: the columns keep their contents, their
    order and their number of rows; and a table whose column names are all
    schema names comes back unchanged. *)
Theorem normalize_column_names_keeps_data (mapping : dict string)
    (df : dataframe) (schema_map : dict string) :
  map snd (df_cols (normalize_column_names_with mapping df schema_map))
    = map snd (df_cols df)
  /\ df_rows (normalize_column_names_with mapping df schema_map) = df_rows df
  /\ ((forall c, In c (columns df) -> In c (dict_keys schema_map)) ->
      normalize_column_names_with mapping df schema_map = df).
Proof.
  repeat split.
  - unfold normalize_column_names_with.
    destruct (rename_map_of mapping schema_map (columns df)); [reflexivity|].
    unfold df_rename. simpl. rewrite map_map. reflexivity.
  - apply df_rows_normalize.
  - intro H. unfold normalize_column_names_with.
    now rewrite (rename_map_of_exact mapping schema_map (columns df) H).
Qed.

Lemma normalize_column_names_keeps_data_witness :
  normalize_column_names_with COLUMN_MAPPING sample_coerced sample_schema
  = sample_coerced.
Proof.
  apply (normalize_column_names_keeps_data COLUMN_MAPPING sample_coerced
           sample_schema).
  intros c Hc. vm_compute in Hc. vm_compute. tauto.
Defined.

(** ** Marker lines and the statements they give *)

Lemma rstrip_keep (p : ascii -> bool) (c : ascii) (s : string) :
  p c = false -> Str.rstrip_by p (String c s) = String c (Str.rstrip_by p s).
Proof.
  intro H. cbn [Str.rstrip_by]. rewrite H. now destruct (Str.rstrip_by p s).
Qed.

Lemma startswith_lower_mono (a b : string) :
  Str.startswith a b = true -> Str.startswith (Str.lower a) (Str.lower b) = true.
Proof.
  revert b. induction a as [|x a IH]; intros b H; [reflexivity|].
  destruct b as [|y b]; [discriminate|]. simpl in H.
  apply andb_true_iff in H. destruct H as [Hxy Hab].
  apply Ascii.eqb_eq in Hxy. subst y. cbn [Str.lower Str.startswith].
  now rewrite Ascii.eqb_refl, IH.
Qed.

Lemma lower_char_semicolon (c : ascii) :
  Str.lower_char c = ";"%char -> c = ";"%char.
Proof.
  destruct c as [[] [] [] [] [] [] [] []]; vm_compute; intro H;
    solve [ reflexivity | discriminate H ].
Qed.

Lemma startswith_lower_filter_semicolon (p x : string) :
  Str.has_char ";"%char p = false ->
  Str.startswith p (Str.lower x) = true ->
  Str.startswith p
    (Str.lower (Str.filter (fun c => negb (Ascii.eqb ";"%char c)) x)) = true.
Proof.
  revert x. induction p as [|a p IH]; intros x Hp H; [reflexivity|].
  destruct x as [|c x]; [discriminate|].
  cbn [Str.lower Str.startswith] in H. apply andb_true_iff in H.
  destruct H as [Hac Hpx]. apply Ascii.eqb_eq in Hac.
  cbn [Str.has_char] in Hp. apply orb_false_iff in Hp. destruct Hp as [Ha Hp].
  assert (Hc : Ascii.eqb ";"%char c = false).
  { destruct (Ascii.eqb ";"%char c) eqn:He; [|reflexivity].
    apply Ascii.eqb_eq in He. subst c. vm_compute in Hac. subst a.
    discriminate Ha. }
  cbn [Str.filter]. rewrite Hc. cbn [negb Str.lower Str.startswith].
  rewrite <- Hac, Ascii.eqb_refl. now apply IH.
Qed.

Lemma lower_char_not_space (c a : ascii) :
  Str.lower_char c = a -> Str.is_space a = false -> Str.is_space c = false.
Proof.
  intros <-. destruct c as [[] [] [] [] [] [] [] []]; vm_compute; intro H;
    solve [ reflexivity | discriminate H ].
Qed.

Lemma lower_char_dash (c : ascii) :
  Ascii.eqb (Str.lower_char c) "-"%char = Ascii.eqb c "-"%char.
Proof. destruct c as [[] [] [] [] [] [] [] []]; vm_compute; reflexivity. Qed.

Lemma marker_line_cases (line : string) :
  Str.startswith "--select" (Str.lower (Str.strip line)) = true ->
  let stmt := Str.replace ";" ""
                (Str.strip (Str.lstrip_by (Ascii.eqb "-"%char) line)) in
  match line with
  | EmptyString => False
  | String c _ =>
      if Str.is_space c
      then Str.startswith "--select" (Str.lower stmt) = true
      else Str.startswith "select" (Str.lower stmt) = true
  end.
Proof.
  intros Hm stmt. subst stmt. rewrite replace_char_filter.
  destruct line as [|c line]; [discriminate|].
  destruct (Str.is_space c) eqn:Hc.
  - assert (Hd : Ascii.eqb "-"%char c = false).
    { destruct (Ascii.eqb "-"%char c) eqn:He; [|reflexivity].
      apply Ascii.eqb_eq in He. subst c. discriminate Hc. }
    cbn [Str.lstrip_by]. rewrite Hd.
    now apply startswith_lower_filter_semicolon.
  - assert (Hline : Str.startswith "--select" (Str.lower (String c line)) = true).
    { eapply startswith_trans; [exact Hm|]. apply startswith_lower_mono.
      unfold Str.strip. cbn [Str.lstrip_by]. rewrite Hc.
      apply startswith_rstrip. }
    clear Hm.
    destruct line as [|c1 [|c2 [|c3 [|c4 [|c5 [|c6 [|c7 rest]]]]]]];
      cbn [Str.lower Str.startswith] in Hline;
      repeat (apply andb_true_iff in Hline;
              let H := fresh "Hch" in destruct Hline as [H Hline];
              apply Ascii.eqb_eq in H);
      try discriminate Hline.
    assert (H0 : Ascii.eqb "-"%char c = true)
      by (rewrite Ascii.eqb_sym, <- lower_char_dash, <- Hch; reflexivity).
    assert (H1 : Ascii.eqb "-"%char c1 = true)
      by (rewrite Ascii.eqb_sym, <- lower_char_dash, <- Hch0; reflexivity).
    assert (H2 : Ascii.eqb "-"%char c2 = false)
      by (rewrite Ascii.eqb_sym, <- lower_char_dash, <- Hch1; reflexivity).
    cbn [Str.lstrip_by]. rewrite H0, H1, H2.
    unfold Str.strip. cbn [Str.lstrip_by].
    rewrite (lower_char_not_space c2 _ (eq_sym Hch1) eq_refl).
    rewrite !rstrip_keep
      by (eapply lower_char_not_space; [symmetry; eassumption|reflexivity]).
    apply startswith_lower_filter_semicolon; [reflexivity|].
    cbn [Str.lower Str.startswith].
    rewrite <- Hch1, <- Hch2, <- Hch3, <- Hch4, <- Hch5, <- Hch6.
    now rewrite !Ascii.eqb_refl.
Qed.

(** X3.  What a marker line gives.  When the line begins with the marker, the
    statement begins with [select] (in any letter case): the dashes are
    gone.  When the line is indented, [lstrip("-")] finds no dash to strip
    and the statement still begins with the two dashes of the marker. *)
Theorem marker_line_statement (line : string) :
  Str.startswith "--select" (Str.lower (Str.strip line)) = true ->
  exists stmt,
    selects_of [line] = [stmt]
    /\ match line with
       | EmptyString => False
       | String c _ =>
           if Str.is_space c
           then Str.startswith "--select" (Str.lower stmt) = true
           else Str.startswith "select" (Str.lower stmt) = true
       end.
Proof.
  intro Hm. eexists. split.
  - unfold selects_of. cbn [List.filter map]. rewrite Hm. reflexivity.
  - exact (marker_line_cases line Hm).
Qed.

Lemma marker_line_statement_witness :
  exists stmt,
    selects_of ["  --SELECT 1 FROM DUAL;"] = [stmt]
    /\ Str.startswith "--select" (Str.lower stmt) = true.
Proof.
  apply (marker_line_statement "  --SELECT 1 FROM DUAL;"). reflexivity.
Defined.
